(** * ChatFlow: the real-time delivery subsystem

    A shallow embedding of [app/websocket/manager.py] (the connection
    registry and event dispatcher), [app/websocket/router.py] (session
    handshake and inbound event router) and the part of [app/core/redis.py]
    and [app/core/security.py] they call, followed by the properties of the
    specification that concern them.

    Conventions of the embedding.
    - The coroutines are run one at a time: an [await] is a plain call.
    - [datetime.utcnow()] is not modelled; envelopes carry their event kind
      and payload only, and Redis expiry times are dropped.
    - A [WebSocket] object is compared by identity (Starlette restores
      [object.__eq__] on connections), so it is a natural number here.
    - A Python [set] and the [dict] of subscriptions are finite sets and maps;
      their iteration order is the one of [elements] and [map_to_list]. *)

From Stdlib Require Import ZArith.
From stdpp Require Import gmap strings list fin_maps.

Local Open Scope string_scope.
Local Open Scope list_scope.
Local Open Scope nat_scope.
Set Warnings "-register-all".

(** ** Values *)

Definition WebSocket := nat.

(** [schemas/websocket.py], [WSEventType]. *)
Inductive WSEventType :=
  | CONNECT | DISCONNECT | PING | PONG
  | MESSAGE_NEW | MESSAGE_UPDATE | MESSAGE_DELETE | MESSAGE_REACTION | MESSAGE_READ
  | TYPING_START | TYPING_STOP
  | USER_ONLINE | USER_OFFLINE | USER_STATUS
  | CHAT_NEW | CHAT_UPDATE | CHAT_DELETE | CHAT_MEMBER_JOIN | CHAT_MEMBER_LEAVE
  | NOTIFICATION
  | ERROR.

Definition value (e : WSEventType) : string :=
  match e with
  | CONNECT => "connect" | DISCONNECT => "disconnect" | PING => "ping" | PONG => "pong"
  | MESSAGE_NEW => "message.new" | MESSAGE_UPDATE => "message.update"
  | MESSAGE_DELETE => "message.delete" | MESSAGE_REACTION => "message.reaction"
  | MESSAGE_READ => "message.read"
  | TYPING_START => "typing.start" | TYPING_STOP => "typing.stop"
  | USER_ONLINE => "user.online" | USER_OFFLINE => "user.offline"
  | USER_STATUS => "user.status"
  | CHAT_NEW => "chat.new" | CHAT_UPDATE => "chat.update" | CHAT_DELETE => "chat.delete"
  | CHAT_MEMBER_JOIN => "chat.member.join" | CHAT_MEMBER_LEAVE => "chat.member.leave"
  | NOTIFICATION => "notification"
  | ERROR => "error"
  end.

(** A decoded JSON value, as [json.loads] returns it and [json.dumps] takes
    it.  Only the truth value of a number is ever observed, so numbers are
    integers.  The keys of a decoded object are pairwise distinct. *)
Inductive json :=
  | JNull
  | JBool (b : bool)
  | JNum (z : Z)
  | JStr (s : string)
  | JArr (l : list json)
  | JObj (kv : list (string * json)).

(** Python truth value of a decoded JSON value. *)
Definition truthy (j : json) : bool :=
  match j with
  | JNull => false
  | JBool b => b
  | JNum z => negb (Z.eqb z 0)
  | JStr s => negb (String.eqb s "")
  | JArr l => match l with [] => false | _ => true end
  | JObj kv => match kv with [] => false | _ => true end
  end.

(** [d.get(k)] on a decoded object. *)
Fixpoint dict_get (k : string) (kv : list (string * json)) : option json :=
  match kv with
  | [] => None
  | (k', v) :: rest => if String.eqb k k' then Some v else dict_get k rest
  end.

(** The envelope [WSMessage(event, data, timestamp)], without its timestamp. *)
Record WSMessage := mkWSMessage { event : WSEventType; data : json }.

(** Python exceptions that the modelled code can meet. *)
Inductive Exn :=
  | WebSocketDisconnect
  | RuntimeError
  | OSError
  | ValueError
  | AttributeError
  | TypeError
  | DBAPIError
  | MultipleResultsFound.

(** Which dispatch a write belongs to: the fan-out of [broadcast_to_chat] on
    a chat, [send_personal_message] to a user, or a reply of the router on
    the connection it is reading. *)
Inductive Origin :=
  | ToChat (chat_id : string)
  | ToUser (user_id : string)
  | Reply.

(** What the transports observe. *)
Inductive Obs :=
  | Delivered (o : Origin) (ws : WebSocket) (m : WSMessage)
  | WriteFailed (o : Origin) (ws : WebSocket) (m : WSMessage)
  | Closed (ws : WebSocket) (code : Z).

(** ** The world: the manager singleton, Redis and the transports *)

Record World := mkWorld {
  (** [ConnectionManager.active_connections]: user id -> its sockets. *)
  active_connections : gmap string (list WebSocket);
  (** [ConnectionManager.chat_subscriptions]: chat id -> set of user ids. *)
  chat_subscriptions : gmap string (gset string);
  (** [redis_manager.redis]: [None] before [RedisManager.connect], else the
      keys it holds (every value written here is ["1"]). *)
  redis : option (gset string);
  (** Transports whose handshake was accepted. *)
  accepted : gset WebSocket;
  (** Number of writes attempted so far. *)
  clock : nat;
  (** Observations, oldest first. *)
  trace : list Obs;
}.

Definition set_active (ac : gmap string (list WebSocket)) (w : World) : World :=
  mkWorld ac (chat_subscriptions w) (redis w) (accepted w) (clock w) (trace w).
Definition set_subscriptions (cs : gmap string (gset string)) (w : World) : World :=
  mkWorld (active_connections w) cs (redis w) (accepted w) (clock w) (trace w).
Definition set_redis (r : option (gset string)) (w : World) : World :=
  mkWorld (active_connections w) (chat_subscriptions w) r (accepted w) (clock w) (trace w).
Definition set_accepted (a : gset WebSocket) (w : World) : World :=
  mkWorld (active_connections w) (chat_subscriptions w) (redis w) a (clock w) (trace w).
Definition observe (o : Obs) (w : World) : World :=
  mkWorld (active_connections w) (chat_subscriptions w) (redis w) (accepted w)
          (clock w) (trace w ++ [o]).
Definition tick (w : World) : World :=
  mkWorld (active_connections w) (chat_subscriptions w) (redis w) (accepted w)
          (S (clock w)) (trace w).

(** The state of a fresh process: [ConnectionManager.__init__] and a
    connected, empty Redis. *)
Definition initial : World := mkWorld ∅ ∅ (Some ∅) ∅ 0 [].

(** ** Rows of the durable store *)

Record User := mkUser { id : string; username : string }.

(** The outcome of a query: [None] when executing it raises, else its rows. *)
Definition Rows (A : Type) := option (list A).

(** ** The collaborators outside the repository *)

Record Env := mkEnv {
  (** [None] when the write number [n] on the socket succeeds, else the
      exception it raises. *)
  write_outcome : nat -> WebSocket -> option Exn;
  (** [str(UUID(s))], or [None] when [UUID(s)] raises [ValueError]. *)
  uuid_parse : string -> option string;
  (** The built-in [str] on a decoded JSON value. *)
  py_str : json -> string;
  (** [jwt.decode] with the configured key: the claims, or [None] on
      [JWTError]. *)
  jwt_decode : string -> option (list (string * json));
  (** [select(User).where(User.id == sub)]. *)
  select_user : json -> Rows User;
  (** [select(ChatMember.chat_id)] of the active memberships of a user,
      each already passed through [str]. *)
  select_chat_ids : string -> Rows string;
  (** [select(ChatMember)] of the active memberships of a user in a chat. *)
  select_member : string -> string -> Rows unit;
}.

(** ** The monad of the embedding: state, exceptions, and fuel *)

Inductive Result (A : Type) :=
  | Ok (a : A) (w : World)
  | Raise (e : Exn) (w : World)
  | OutOfFuel.
Arguments Ok {A} a w.
Arguments Raise {A} e w.
Arguments OutOfFuel {A}.

Definition M (A : Type) := World -> Result A.

Definition ret {A} (a : A) : M A := fun w => Ok a w.
Definition raise {A} (e : Exn) : M A := fun w => Raise e w.
Definition bind {A B} (m : M A) (k : A -> M B) : M B :=
  fun w => match m w with
           | Ok a w' => k a w'
           | Raise e w' => Raise e w'
           | OutOfFuel => OutOfFuel
           end.
Definition modify (f : World -> World) : M unit := fun w => Ok tt (f w).
Definition get {A} (f : World -> A) : M A := fun w => Ok (f w) w.

Declare Scope m_scope.
Delimit Scope m_scope with M.
Notation "x <- m ;; k" := (bind m (fun x => k))
  (at level 100, m at next level, right associativity) : m_scope.
Notation "m ;; k" := (bind m (fun _ => k))
  (at level 100, right associativity) : m_scope.
Local Open Scope m_scope.

(** [for x in l: body(x)]. *)
Fixpoint for_each {A} (l : list A) (body : A -> M unit) : M unit :=
  match l with
  | [] => ret tt
  | x :: rest => body x ;; for_each rest body
  end.

(** The world a computation stopped in. *)
Definition world_of {A} (r : Result A) (w0 : World) : World :=
  match r with
  | Ok _ w | Raise _ w => w
  | OutOfFuel => w0
  end.

(** ** [core/redis.py]: the presence store *)

Module redis_manager.

(** [RedisManager.set]: a no-op while Redis is not connected. *)
Definition set (key : string) : M unit :=
  modify (fun w => match redis w with
                   | Some keys => set_redis (Some ({[key]} ∪ keys)) w
                   | None => w
                   end).

(** [RedisManager.delete]. *)
Definition delete (key : string) : M unit :=
  modify (fun w => match redis w with
                   | Some keys => set_redis (Some (keys ∖ {[key]})) w
                   | None => w
                   end).

(** [RedisManager.exists]. *)
Definition exists_ (key : string) (w : World) : bool :=
  match redis w with
  | Some keys => bool_decide (key ∈ keys)
  | None => false
  end.

Definition online_key (user_id : string) : string :=
  ("user:online:" ++ user_id)%string.
Definition typing_key (chat_id user_id : string) : string :=
  ("typing:" ++ chat_id ++ ":" ++ user_id)%string.

Definition set_user_online (user_id : string) : M unit := set (online_key user_id).
Definition set_user_offline (user_id : string) : M unit := delete (online_key user_id).
Definition is_user_online (user_id : string) (w : World) : bool :=
  exists_ (online_key user_id) w.

Definition set_user_typing (user_id chat_id : string) (is_typing : bool) : M unit :=
  if is_typing then set (typing_key chat_id user_id)
  else delete (typing_key chat_id user_id).

End redis_manager.

(** ** [websocket/manager.py]: the connection manager *)

(** [list.remove(x)]: drops the first occurrence. *)
Fixpoint remove_first (x : WebSocket) (l : list WebSocket) : list WebSocket :=
  match l with
  | [] => []
  | y :: rest => if decide (x = y) then rest else y :: remove_first x rest
  end.

(** [exclude_user and user_id == exclude_user]. *)
Definition excluded (exclude_user : option string) (user_id : string) : bool :=
  match exclude_user with
  | Some x => negb (String.eqb x "") && String.eqb user_id x
  | None => false
  end.

(** [WSUserStatus(...).model_dump(mode="json")]; the time of [last_seen] is
    not modelled. *)
Definition user_status_data (uid status : string) : json :=
  JObj [("user_id", JStr uid); ("status", JStr status); ("last_seen", JNull)].

Definition status_event (status : string) : WSEventType :=
  if String.eqb status "online" then USER_ONLINE else USER_OFFLINE.

Section Manager.
Context (env : Env).

(** *** The transport

    [WebSocket.accept] sends the ASGI message [websocket.accept], which
    Starlette allows only while the application side of the transport is
    still connecting: on a transport that was accepted before it raises
    [RuntimeError], and nothing in this code puts a transport back into
    its handshake.  A write succeeds or raises as the environment decides;
    [close] is recorded with its status code. *)

Definition accept (ws : WebSocket) : M unit := fun w =>
  if decide (ws ∈ accepted w) then Raise RuntimeError w
  else Ok tt (set_accepted ({[ws]} ∪ accepted w) w).

Definition send_text (o : Origin) (ws : WebSocket) (m : WSMessage) : M unit := fun w =>
  match write_outcome env (clock w) ws with
  | None => Ok tt (observe (Delivered o ws m) (tick w))
  | Some e => Raise e (observe (WriteFailed o ws m) (tick w))
  end.

Definition close (ws : WebSocket) (code : Z) : M unit :=
  modify (observe (Closed ws code)).

(** [try: await websocket.send_text(m) / except Exception:
    disconnected.append(websocket)]: whether the write failed. *)
Definition try_send (o : Origin) (m : WSMessage) (ws : WebSocket) : M bool := fun w =>
  match send_text o ws m w with
  | Ok _ w' => Ok false w'
  | Raise _ w' => Ok true w'
  | OutOfFuel => OutOfFuel
  end.

(** The loop over the sockets of one user; returns [disconnected]. *)
Fixpoint send_all (o : Origin) (m : WSMessage) (conns : list WebSocket)
  : M (list WebSocket) :=
  match conns with
  | [] => ret []
  | ws :: rest =>
      failed <- try_send o m ws ;;
      disconnected <- send_all o m rest ;;
      ret (if failed : bool then ws :: disconnected else disconnected)
  end.

(** *** The mutually recursive part

    [disconnect] calls [broadcast_user_status], which calls
    [broadcast_to_chat], which calls [disconnect] on the sockets whose
    write failed.  The three are first written over the
    [broadcast_user_status] of the calls they make. *)
Section Cascade.
Variable broadcast_user_status_rec : string -> string -> M unit.

Definition disconnect_with (ws : WebSocket) (user_id : string) : M unit := fun w =>
  match active_connections w !! user_id with
  | None => Ok tt w
  | Some conns =>
      let conns' := if decide (ws ∈ conns) then remove_first ws conns else conns in
      match conns' with
      | [] =>
          (modify (set_active (delete user_id (active_connections w))) ;;
           redis_manager.set_user_offline user_id ;;
           broadcast_user_status_rec user_id "offline") w
      | _ => Ok tt (set_active (<[user_id := conns']> (active_connections w)) w)
      end
  end.

(** The body shared by [send_personal_message] and the inner loop of
    [broadcast_to_chat]: write to every socket of the user, then
    disconnect those whose write failed. *)
Definition send_to_with (o : Origin) (m : WSMessage) (user_id : string) : M unit := fun w =>
  match active_connections w !! user_id with
  | None => Ok tt w
  | Some conns =>
      (disconnected <- send_all o m conns ;;
       for_each disconnected (fun ws => disconnect_with ws user_id)) w
  end.

Definition broadcast_to_chat_with (chat_id : string) (event : WSEventType)
    (data : json) (exclude_user : option string) : M unit := fun w =>
  match chat_subscriptions w !! chat_id with
  | None => Ok tt w
  | Some users =>
      for_each (elements users) (fun user_id =>
        if excluded exclude_user user_id then ret tt
        else send_to_with (ToChat chat_id) (mkWSMessage event data) user_id) w
  end.

Definition broadcast_user_status_body (user_id status : string) : M unit :=
  match uuid_parse env user_id with
  | None => raise ValueError
  | Some uid => fun w =>
      for_each (map_to_list (chat_subscriptions w)) (fun '(chat_id, users) =>
        if decide (user_id ∈ users)
        then broadcast_to_chat_with chat_id (status_event status)
               (user_status_data uid status) (Some user_id)
        else ret tt) w
  end.
End Cascade.

Fixpoint broadcast_user_status_fuel (fuel : nat) (user_id status : string) : M unit :=
  match fuel with
  | 0 => fun _ => OutOfFuel
  | S fuel' => broadcast_user_status_body (broadcast_user_status_fuel fuel') user_id status
  end.

(** Every level of the recursion deletes one entry of
    [active_connections] before it descends, so this much fuel is enough
    (lemma [broadcast_user_status_fuel_enough]). *)
Definition cascade_fuel (w : World) : nat := S (size (active_connections w)).

Definition broadcast_user_status (user_id status : string) : M unit := fun w =>
  broadcast_user_status_fuel (cascade_fuel w) user_id status w.

Definition disconnect (ws : WebSocket) (user_id : string) : M unit := fun w =>
  disconnect_with (broadcast_user_status_fuel (cascade_fuel w)) ws user_id w.

Definition send_to (o : Origin) (m : WSMessage) (user_id : string) : M unit := fun w =>
  send_to_with (broadcast_user_status_fuel (cascade_fuel w)) o m user_id w.

Definition send_personal_message (user_id : string) (event : WSEventType) (data : json)
  : M unit :=
  send_to (ToUser user_id) (mkWSMessage event data) user_id.

Definition broadcast_to_chat (chat_id : string) (event : WSEventType) (data : json)
    (exclude_user : option string) : M unit := fun w =>
  broadcast_to_chat_with (broadcast_user_status_fuel (cascade_fuel w))
    chat_id event data exclude_user w.

Definition connect (ws : WebSocket) (user_id : string) : M unit :=
  accept ws ;;
  modify (fun w =>
    set_active (<[user_id := default [] (active_connections w !! user_id) ++ [ws]]>
                  (active_connections w)) w) ;;
  redis_manager.set_user_online user_id ;;
  broadcast_user_status user_id "online".

Definition subscribe_to_chat (user_id chat_id : string) : M unit :=
  modify (fun w =>
    set_subscriptions
      (<[chat_id := default ∅ (chat_subscriptions w !! chat_id) ∪ {[user_id]}]>
         (chat_subscriptions w)) w).

Definition unsubscribe_from_chat (user_id chat_id : string) : M unit :=
  modify (fun w =>
    match chat_subscriptions w !! chat_id with
    | Some users =>
        set_subscriptions (<[chat_id := users ∖ {[user_id]}]> (chat_subscriptions w)) w
    | None => w
    end).

(** [str(UUID(x))] inside a payload constructor: [UUID] calls
    [x.replace], which only a string has. *)
Definition UUID (x : json) : M string :=
  match x with
  | JStr s => match uuid_parse env s with
              | Some u => ret u
              | None => raise ValueError
              end
  | _ => raise AttributeError
  end.

Definition send_typing_status (chat_id user_id username : string) (is_typing : bool)
  : M unit :=
  c <- UUID (JStr chat_id) ;;
  u <- UUID (JStr user_id) ;;
  broadcast_to_chat chat_id (if is_typing then TYPING_START else TYPING_STOP)
    (JObj [("chat_id", JStr c); ("user_id", JStr u); ("username", JStr username)])
    (Some user_id) ;;
  redis_manager.set_user_typing user_id chat_id is_typing.

Definition send_new_message (chat_id : string) (message_data : json) (sender_id : string)
  : M unit :=
  broadcast_to_chat chat_id MESSAGE_NEW message_data (Some sender_id).

(** [edited_at] is a time and is not modelled. *)
Definition send_message_update (chat_id message_id content : string) (is_edited : bool)
  : M unit :=
  m <- UUID (JStr message_id) ;;
  c <- UUID (JStr chat_id) ;;
  broadcast_to_chat chat_id MESSAGE_UPDATE
    (JObj [("id", JStr m); ("chat_id", JStr c); ("content", JStr content);
           ("is_edited", JBool is_edited); ("edited_at", JNull)])
    None.

Definition send_message_delete (chat_id message_id : string) (deleted_for_everyone : bool)
  : M unit :=
  m <- UUID (JStr message_id) ;;
  c <- UUID (JStr chat_id) ;;
  broadcast_to_chat chat_id MESSAGE_DELETE
    (JObj [("id", JStr m); ("chat_id", JStr c);
           ("deleted_for_everyone", JBool deleted_for_everyone)])
    None.

Definition send_read_receipt (chat_id user_id : string) (message_id : json) : M unit :=
  c <- UUID (JStr chat_id) ;;
  u <- UUID (JStr user_id) ;;
  m <- UUID message_id ;;
  broadcast_to_chat chat_id MESSAGE_READ
    (JObj [("chat_id", JStr c); ("user_id", JStr u); ("message_id", JStr m);
           ("read_at", JNull)])
    (Some user_id).

Definition get_online_users_count (w : World) : nat := size (active_connections w).

Definition is_user_online (user_id : string) (w : World) : bool :=
  bool_decide (is_Some (active_connections w !! user_id)).

End Manager.

(** ** [core/security.py] and [websocket/router.py] *)

(** What the read loop gets from [receive_text] followed by [json.loads]:
    a text frame with its decoding ([None] when [json.loads] raises
    [JSONDecodeError]), or the disconnect message of the transport. *)
Inductive Recv :=
  | RecvText (decoded : option json)
  | RecvDisconnect.

(** How a run of the endpoint over the frames received so far ends: the
    handshake was refused, the loop is waiting for the next frame, or the
    loop was left through an exception handler. *)
Inductive Outcome := Refused | Open | Terminated.

(** [try: m / except Exception as e: h e]. *)
Definition try_except {A} (m : M A) (h : Exn -> M A) : M A := fun w =>
  match m w with
  | Ok a w' => Ok a w'
  | Raise e w' => h e w'
  | OutOfFuel => OutOfFuel
  end.

(** [x.get(k)], which only a decoded object has; a missing key and an
    explicit [null] both give Python's [None]. *)
Definition py_get (x : json) (k : string) : M json :=
  match x with
  | JObj kv => ret (default JNull (dict_get k kv))
  | _ => raise AttributeError
  end.

(** [x.get(k, d)]. *)
Definition py_get_default (x : json) (k : string) (d : json) : M json :=
  match x with
  | JObj kv => ret (default d (dict_get k kv))
  | _ => raise AttributeError
  end.

(** [event_type == v] for a string [v]. *)
Definition event_is (event_type : json) (v : string) : bool :=
  match event_type with
  | JStr s => String.eqb s v
  | _ => false
  end.

(** [result.scalar_one_or_none()] on an executed query. *)
Definition scalar_one_or_none {A} (r : Rows A) : M (option A) :=
  match r with
  | None => raise DBAPIError
  | Some [] => ret None
  | Some [x] => ret (Some x)
  | Some _ => raise MultipleResultsFound
  end.

Section Router.
Context (env : Env).

Definition decode_token (token : string) : option (list (string * json)) :=
  jwt_decode env token.

(** [verify_token]: the subject of the token, Python's [None] included. *)
Definition verify_token (token token_type : string) : option json :=
  match decode_token token with
  | None => None
  | Some payload =>
      if event_is (default JNull (dict_get "type" payload)) token_type
      then Some (default JNull (dict_get "sub" payload))
      else None
  end.

Definition get_user_from_token (token : string) : M (option User) :=
  match verify_token token "access" with
  | None => ret None
  | Some user_id =>
      if truthy user_id then scalar_one_or_none (select_user env user_id)
      else ret None
  end.

Definition get_user_chat_ids (user_id : string) : M (list string) :=
  match select_chat_ids env user_id with
  | None => raise DBAPIError
  | Some rows => ret rows
  end.

Definition send_json (ws : WebSocket) (m : WSMessage) : M unit :=
  send_text env Reply ws m.

Definition send_error (ws : WebSocket) (code message : string) : M unit :=
  send_json ws
    (mkWSMessage ERROR
       (JObj [("code", JStr code); ("message", JStr message); ("details", JNull)])).

Definition handle_websocket_event (ws : WebSocket) (user : User)
    (event_type : json) (data : json) : M unit :=
  let user_id := id user in
  if event_is event_type (value PING) then
    send_json ws (mkWSMessage PONG (JObj [])) ;;
    redis_manager.set_user_online user_id
  else if event_is event_type (value TYPING_START) then
    chat_id <- py_get data "chat_id" ;;
    if truthy chat_id then
      match chat_id with
      | JStr c => send_typing_status env c user_id (username user) true
      | _ => raise AttributeError
      end
    else ret tt
  else if event_is event_type (value TYPING_STOP) then
    chat_id <- py_get data "chat_id" ;;
    if truthy chat_id then
      match chat_id with
      | JStr c => send_typing_status env c user_id (username user) false
      | _ => raise AttributeError
      end
    else ret tt
  else if event_is event_type (value MESSAGE_READ) then
    chat_id <- py_get data "chat_id" ;;
    message_id <- py_get data "message_id" ;;
    if truthy chat_id && truthy message_id then
      match chat_id with
      | JStr c => send_read_receipt env c user_id message_id
      | _ => raise AttributeError
      end
    else ret tt
  else if event_is event_type "subscribe" then
    chat_id <- py_get data "chat_id" ;;
    if truthy chat_id then
      match chat_id with
      | JStr c =>
          member <- scalar_one_or_none (select_member env c user_id) ;;
          match member with
          | Some _ => subscribe_to_chat user_id c
          | None => ret tt
          end
      | _ =>
          (* the driver cannot bind a value that is not a string to the
             UUID column [chat_id] *)
          raise DBAPIError
      end
    else ret tt
  else if event_is event_type "unsubscribe" then
    chat_id <- py_get data "chat_id" ;;
    if truthy chat_id then
      match chat_id with
      | JStr c => unsubscribe_from_chat user_id c
      | JArr _ | JObj _ => raise TypeError      (* unhashable *)
      | _ => ret tt                             (* no key of the dict is equal to it *)
      end
    else ret tt
  else
    send_error ws "UNKNOWN_EVENT" ("Unknown event type: " ++ py_str env event_type)%string.

(** One turn of the [while True] loop. *)
Definition handle_frame (ws : WebSocket) (user : User) (r : Recv) : M unit :=
  match r with
  | RecvDisconnect => raise WebSocketDisconnect
  | RecvText None => send_error ws "INVALID_JSON" "Invalid JSON format"
  | RecvText (Some message) =>
      event_type <- py_get message "event" ;;
      event_data <- py_get_default message "data" (JObj []) ;;
      handle_websocket_event ws user event_type event_data
  end.

(** The loop over the frames received so far; it is left only by an
    exception, and waits in [receive_text] once they are used up. *)
Definition read_loop (ws : WebSocket) (user : User) (inbox : list Recv) : M unit :=
  for_each inbox (handle_frame ws user).

(** The [try] block from [connect] on. *)
Definition session (ws : WebSocket) (user : User) (inbox : list Recv) : M Outcome :=
  let user_id := id user in
  connect env ws user_id ;;
  chat_ids <- get_user_chat_ids user_id ;;
  for_each chat_ids (fun chat_id => subscribe_to_chat user_id chat_id) ;;
  send_json ws
    (mkWSMessage CONNECT
       (JObj [("user_id", JStr user_id); ("username", JStr (username user));
              ("chat_count", JNum (Z.of_nat (length chat_ids)))])) ;;
  read_loop ws user inbox ;;
  ret Open.

(** The two [except] clauses, with [user] as it is bound when the
    exception is raised. *)
Definition on_exception (ws : WebSocket) (user : option User) (e : Exn) : M Outcome :=
  match user with
  | Some u => disconnect env ws (id u)
  | None => ret tt
  end ;;
  match e with
  | WebSocketDisconnect => ret Terminated
  | _ => close ws 4000 ;; ret Terminated
  end.

Definition websocket_endpoint (ws : WebSocket) (token : option string)
    (inbox : list Recv) : M Outcome :=
  match token with
  | None | Some "" => close ws 4001 ;; ret Refused
  | Some token => fun w =>
      match get_user_from_token token w with
      | Ok None w' => (close ws 4001 ;; ret Refused) w'
      | Ok (Some u) w' => try_except (session ws u inbox) (on_exception ws (Some u)) w'
      | Raise e w' => on_exception ws None e w'
      | OutOfFuel => OutOfFuel
      end
  end.

End Router.

(** * Properties *)

(** ** Reading the registry *)

(** [ConnectionsOf]: the sockets registered for a user. *)
Definition connections_of (w : World) (user_id : string) : list WebSocket :=
  default [] (active_connections w !! user_id).

(** [SubscribersOf]: the subscription set of a chat. *)
Definition subscribers_of (w : World) (chat_id : string) : gset string :=
  default ∅ (chat_subscriptions w !! chat_id).

(** The messages delivered to a socket, oldest first. *)
Fixpoint deliveries_to (ws : WebSocket) (tr : list Obs) : list WSMessage :=
  match tr with
  | [] => []
  | Delivered _ ws' m :: rest =>
      if decide (ws' = ws) then m :: deliveries_to ws rest else deliveries_to ws rest
  | _ :: rest => deliveries_to ws rest
  end.

(** The target of a write agrees with its origin: a fan-out on a chat
    writes to a socket of a subscriber, a personal message to a socket of
    its user. *)
Definition origin_ok (w : World) (o : Origin) (ws : WebSocket) : Prop :=
  match o with
  | ToChat chat_id => ∃ user_id, user_id ∈ subscribers_of w chat_id ∧ ws ∈ connections_of w user_id
  | ToUser user_id => ws ∈ connections_of w user_id
  | Reply => False
  end.

Definition entry_ok (w : World) (e : Obs) : Prop :=
  match e with
  | Delivered o ws _ | WriteFailed o ws _ => origin_ok w o ws
  | Closed _ _ => False
  end.

(** ** What a dispatch may do to the world

    [cascade w w']: [w'] comes from [w] by writes and by the pruning of
    sockets.  Subscriptions and accepted transports are untouched, registry
    entries only lose sockets (and are deleted rather than left empty),
    Redis only loses keys, and every new observation is a write on a socket
    that [w] has registered for the origin of the write. *)
Record cascade (w w' : World) : Prop := mkCascade {
  cas_subscriptions : chat_subscriptions w' = chat_subscriptions w;
  cas_accepted : accepted w' = accepted w;
  cas_registry : ∀ u l', active_connections w' !! u = Some l' →
      ∃ l, active_connections w !! u = Some l ∧ l' `sublist_of` l ∧ (l' = [] → l = []);
  cas_redis : match redis w with
              | None => redis w' = None
              | Some keys => ∃ keys', redis w' = Some keys' ∧ keys' ⊆ keys
              end;
  cas_clock : clock w ≤ clock w';
  cas_trace : ∃ new, trace w' = (trace w ++ new) ∧ Forall (entry_ok w) new;
}.

Lemma connections_of_cascade w w' u ws :
  cascade w w' → ws ∈ connections_of w' u → ws ∈ connections_of w u.
Proof.
  intros Hc. unfold connections_of.
  destruct (active_connections w' !! u) as [l'|] eqn:E; simpl; [|by intros ?%elem_of_nil].
  destruct (cas_registry _ _ Hc _ _ E) as (l & -> & Hsub & _); simpl.
  intros Hin. by eapply elem_of_sublist.
Qed.

Lemma subscribers_of_cascade w w' c :
  cascade w w' → subscribers_of w' c = subscribers_of w c.
Proof. intros Hc. unfold subscribers_of. by rewrite (cas_subscriptions _ _ Hc). Qed.

Lemma origin_ok_cascade w w' o ws : cascade w w' → origin_ok w' o ws → origin_ok w o ws.
Proof.
  intros Hc. destruct o as [c|u|]; simpl; [|by apply connections_of_cascade|done].
  intros (u & Hu & Hws). exists u. rewrite <-(subscribers_of_cascade _ _ _ Hc).
  eauto using connections_of_cascade.
Qed.

Lemma entry_ok_cascade w w' e : cascade w w' → entry_ok w' e → entry_ok w e.
Proof. destruct e; simpl; eauto using origin_ok_cascade. Qed.

Lemma cascade_refl w : cascade w w.
Proof.
  split; try done.
  - intros u l' ->. eauto.
  - destruct (redis w); eauto.
  - exists []. by rewrite app_nil_r.
Qed.

Lemma cascade_trans w1 w2 w3 : cascade w1 w2 → cascade w2 w3 → cascade w1 w3.
Proof.
  intros H12 H23. split.
  - by rewrite (cas_subscriptions _ _ H23), (cas_subscriptions _ _ H12).
  - by rewrite (cas_accepted _ _ H23), (cas_accepted _ _ H12).
  - intros u l3 E3.
    destruct (cas_registry _ _ H23 _ _ E3) as (l2 & E2 & S23 & N23).
    destruct (cas_registry _ _ H12 _ _ E2) as (l1 & E1 & S12 & N12).
    exists l1. split_and!; [done|by etrans|auto].
  - pose proof (cas_redis _ _ H12) as R12. pose proof (cas_redis _ _ H23) as R23.
    destruct (redis w1) as [k1|].
    + destruct R12 as (k2 & E2 & S2). rewrite E2 in R23.
      destruct R23 as (k3 & E3 & S3). exists k3. split; [done|set_solver].
    + rewrite R12 in R23. done.
  - pose proof (cas_clock _ _ H12). pose proof (cas_clock _ _ H23). lia.
  - destruct (cas_trace _ _ H12) as (n1 & T1 & F1).
    destruct (cas_trace _ _ H23) as (n2 & T2 & F2).
    exists (n1 ++ n2). split.
    + by rewrite T2, T1, app_assoc.
    + apply Forall_app. split; [done|].
      eapply Forall_impl; [exact F2|]. intros e. by apply entry_ok_cascade.
Qed.

Global Instance cascade_preorder : PreOrder cascade.
Proof. split; [exact cascade_refl|exact cascade_trans]. Qed.

Lemma cascade_size w w' :
  cascade w w' → size (active_connections w') ≤ size (active_connections w).
Proof.
  intros Hc. rewrite <-!(size_dom (D:=gset string)). apply subseteq_size.
  intros u [l' E]%elem_of_dom.
  destruct (cas_registry _ _ Hc _ _ E) as (l & El & _). apply elem_of_dom. eauto.
Qed.

(** ** A Hoare rule for dispatches *)

(** Some registered user id is not the text of a UUID. *)
Definition invalid_id (env : Env) (w : World) : Prop :=
  ∃ v, is_Some (active_connections w !! v) ∧ uuid_parse env v = None.

Lemma invalid_id_cascade env w w' : cascade w w' → invalid_id env w' → invalid_id env w.
Proof.
  intros Hc (v & [l' E] & Hv). exists v. split; [|done].
  destruct (cas_registry _ _ Hc _ _ E) as (l & El & _). eauto.
Qed.

(** [safe env P m]: from a world in [P], [m] does not run out of fuel, and
    whether it returns or raises it leaves a world that [cascade] relates to
    the one it started in; it raises nothing but the [ValueError] of [UUID]
    on a registered user id. *)
Definition safe {A} (env : Env) (P : World → Prop) (m : M A) : Prop :=
  ∀ w, P w → match m w with
             | Ok _ w' => cascade w w'
             | Raise e w' => cascade w w' ∧ e = ValueError ∧ invalid_id env w
             | OutOfFuel => False
             end.

(** The same for a [broadcast_user_status], whose user may have left the
    registry already. *)
Definition safe_status (env : Env) (P : World → Prop) (m : string → string → M unit) : Prop :=
  ∀ v st w, P w → match m v st w with
                  | Ok _ w' => cascade w w'
                  | Raise e w' =>
                      cascade w w' ∧ e = ValueError ∧
                      (uuid_parse env v = None ∨ invalid_id env w)
                  | OutOfFuel => False
                  end.

Lemma safe_ret {A} env P (a : A) : safe env P (ret a).
Proof. intros w _. simpl. reflexivity. Qed.

Lemma safe_weaken {A} env (P Q : World → Prop) (m : M A) :
  (∀ w, P w → Q w) → safe env Q m → safe env P m.
Proof. intros HPQ Hm w Hw. apply Hm, HPQ, Hw. Qed.

Lemma safe_bind {A B} env (P Q : World → Prop) (m : M A) (k : A → M B) :
  safe env P m → (∀ a, safe env Q (k a)) → (∀ w w', P w → cascade w w' → Q w') →
  safe env P (bind m k).
Proof.
  intros Hm Hk HPQ w Hw. unfold bind. specialize (Hm w Hw).
  destruct (m w) as [a w1|e w1|]; [|done|done].
  specialize (Hk a w1 (HPQ _ _ Hw Hm)).
  destruct (k a w1) as [b w2|e w2|]; [by etrans| |done].
  destruct Hk as (Hc & -> & Hbad). split_and!; [by etrans|done|by eapply invalid_id_cascade].
Qed.

Lemma safe_for_each {A} env (P : World → Prop) (l : list A) (body : A → M unit) :
  (∀ x, x ∈ l → safe env P (body x)) → (∀ w w', P w → cascade w w' → P w') →
  safe env P (for_each l body).
Proof.
  intros Hbody HP. induction l as [|x l IH]; simpl; [apply safe_ret|].
  eapply safe_bind; [apply Hbody; left| |exact HP].
  intros _. apply IH. intros y Hy. apply Hbody. by right.
Qed.

(** The fuel a world can still use: one more than the number of users in
    the registry. *)
Definition below (fuel : nat) (w : World) : Prop := size (active_connections w) < fuel.

Lemma below_cascade fuel w w' : below fuel w → cascade w w' → below fuel w'.
Proof. unfold below. intros ? ?%cascade_size. lia. Qed.

Lemma remove_first_sublist ws l : remove_first ws l `sublist_of` l.
Proof.
  induction l as [|y l IH]; simpl; [done|].
  destruct (decide (ws = y)); [by apply sublist_cons|by apply sublist_skip].
Qed.

Lemma remove_first_notin ws l : ws ∉ l → remove_first ws l = l.
Proof.
  induction l as [|y l IH]; simpl; [done|].
  intros [? ?]%not_elem_of_cons. destruct (decide (ws = y)); [done|]. by rewrite IH.
Qed.

Lemma remove_first_NoDup ws l : NoDup l → ws ∉ remove_first ws l.
Proof.
  induction 1 as [|y l Hy Hl IH]; simpl; [by intros ?%elem_of_nil|].
  destruct (decide (ws = y)) as [->|Hne]; [done|].
  intros [?|?]%elem_of_cons; [done|by apply IH].
Qed.

Lemma remove_first_other ws x l : x ≠ ws → x ∈ l → x ∈ remove_first ws l.
Proof.
  intros Hne. induction l as [|y l IH]; simpl; [done|].
  intros [->|Hin]%elem_of_cons.
  - destruct (decide (ws = y)); [congruence|left].
  - destruct (decide (ws = y)); [done|right; auto].
Qed.

(** *** The writes of one loop over sockets, in closed form *)

Section Writes.
Context (env : Env).

(** The observations of the loop started at write number [n]. *)
Fixpoint attempts (o : Origin) (m : WSMessage) (n : nat) (l : list WebSocket) : list Obs :=
  match l with
  | [] => []
  | ws :: rest =>
      (match write_outcome env n ws with
       | None => Delivered o ws m
       | Some _ => WriteFailed o ws m
       end) :: attempts o m (S n) rest
  end.

(** The sockets whose write failed, that is the list [disconnected]. *)
Fixpoint failures (n : nat) (l : list WebSocket) : list WebSocket :=
  match l with
  | [] => []
  | ws :: rest =>
      match write_outcome env n ws with
      | None => failures (S n) rest
      | Some _ => ws :: failures (S n) rest
      end
  end.

(** The sockets whose write succeeded. *)
Fixpoint survivors (n : nat) (l : list WebSocket) : list WebSocket :=
  match l with
  | [] => []
  | ws :: rest =>
      match write_outcome env n ws with
      | None => ws :: survivors (S n) rest
      | Some _ => survivors (S n) rest
      end
  end.

Definition after_writes (o : Origin) (m : WSMessage) (l : list WebSocket) (w : World) : World :=
  mkWorld (active_connections w) (chat_subscriptions w) (redis w) (accepted w)
          (clock w + length l) (trace w ++ attempts o m (clock w) l).

Lemma send_all_eq o m l w :
  send_all env o m l w = Ok (failures (clock w) l) (after_writes o m l w).
Proof.
  revert w. induction l as [|ws l IH]; intros w; simpl.
  - unfold ret, after_writes. simpl. rewrite Nat.add_0_r, app_nil_r. by destruct w.
  - unfold bind, try_send, send_text.
    destruct (write_outcome env (clock w) ws) as [e|] eqn:E; simpl;
      rewrite IH; unfold ret, after_writes; simpl; rewrite E;
      rewrite <-app_assoc; simpl; do 2 f_equal; lia.
Qed.

Lemma failures_sublist n l : failures n l `sublist_of` l.
Proof.
  revert n. induction l as [|ws l IH]; intros n; simpl; [done|].
  destruct (write_outcome env n ws); [by apply sublist_skip|by apply sublist_cons].
Qed.

Lemma attempts_ok w o m n l :
  (∀ ws, ws ∈ l → origin_ok w o ws) → Forall (entry_ok w) (attempts o m n l).
Proof.
  revert n. induction l as [|ws l IH]; intros n Hl; simpl; [constructor|].
  constructor.
  - destruct (write_outcome env n ws); simpl; apply Hl; left.
  - apply IH. intros ? ?. apply Hl. by right.
Qed.

Lemma after_writes_cascade w o m l :
  (∀ ws, ws ∈ l → origin_ok w o ws) → cascade w (after_writes o m l w).
Proof.
  intros Hl. split; simpl; try done.
  - intros u l' ->. eauto.
  - destruct (redis w); eauto.
  - lia.
  - eauto using attempts_ok.
Qed.
End Writes.

(** ** Termination of the cascade, and what it preserves *)

(** What [disconnect] does to the world when the last socket of a user is
    gone, before it broadcasts: the entry is deleted and the presence key
    removed. *)
Definition mark_offline (user_id : string) (w : World) : World :=
  let w1 := set_active (delete user_id (active_connections w)) w in
  match redis w1 with
  | Some keys => set_redis (Some (keys ∖ {[redis_manager.online_key user_id]})) w1
  | None => w1
  end.

(** What is left of the sockets of a user after [list.remove]. *)
Definition pruned (ws : WebSocket) (conns : list WebSocket) : list WebSocket :=
  if decide (ws ∈ conns) then remove_first ws conns else conns.

Lemma pruned_sublist ws conns : pruned ws conns `sublist_of` conns.
Proof. unfold pruned. case_decide; [apply remove_first_sublist|done]. Qed.

Lemma mark_offline_cascade u conns w :
  active_connections w !! u = Some conns → cascade w (mark_offline u w).
Proof.
  destruct w as [ac cs r a c t]. unfold mark_offline. simpl. intros E.
  split; simpl.
  - by destruct r.
  - by destruct r.
  - intros v l'. destruct r; simpl; intros [_ Hl]%lookup_delete_Some;
      exists l'; by split_and!.
  - destruct r as [keys|]; simpl; [|done]. eexists. split; [done|].
    intros k. rewrite elem_of_difference. tauto.
  - by destruct r.
  - exists []. rewrite app_nil_r. split; [by destruct r|constructor].
Qed.

Lemma mark_offline_size u conns w :
  active_connections w !! u = Some conns →
  S (size (active_connections (mark_offline u w))) = size (active_connections w).
Proof.
  destruct w as [ac cs r a c t]. unfold mark_offline. simpl. intros E.
  assert (size ac ≠ 0) by (eapply map_size_ne_0_lookup_2; eauto).
  pose proof (map_size_delete_Some u ac (mk_is_Some _ _ E)).
  destruct r; simpl; lia.
Qed.

Lemma shrink_cascade u conns conns' w :
  active_connections w !! u = Some conns → conns' `sublist_of` conns → conns' ≠ [] →
  cascade w (set_active (<[u := conns']> (active_connections w)) w).
Proof.
  intros E Hsub Hne. split; simpl; try done.
  - intros v l' [[-> <-]|[_ Hl]]%lookup_insert_Some; [by exists conns|].
    exists l'. by split_and!.
  - destruct (redis w); eauto.
  - exists []. by rewrite app_nil_r.
Qed.

Section Safety.
Context (env : Env).

Lemma disconnect_with_eq rec ws u w :
  disconnect_with rec ws u w =
  match active_connections w !! u with
  | None => Ok tt w
  | Some conns =>
      match pruned ws conns with
      | [] => rec u "offline" (mark_offline u w)
      | conns' => Ok tt (set_active (<[u := conns']> (active_connections w)) w)
      end
  end.
Proof.
  unfold disconnect_with, pruned. destruct (active_connections w !! u) as [conns|]; [|done].
  destruct (if decide (ws ∈ conns) then _ else _); [|done].
  unfold bind, modify, redis_manager.set_user_offline, redis_manager.delete, mark_offline.
  simpl. by destruct (redis w).
Qed.

Lemma disconnect_with_safe fuel rec ws u :
  safe_status env (below fuel) rec →
  safe env (below (S fuel)) (disconnect_with rec ws u).
Proof.
  intros Hrec w Hw. rewrite disconnect_with_eq.
  destruct (active_connections w !! u) as [conns|] eqn:E; [|reflexivity].
  pose proof (pruned_sublist ws conns) as Hsub.
  destruct (pruned ws conns) as [|c conns'] eqn:E'.
  - pose proof (mark_offline_cascade _ _ _ E) as Hc.
    pose proof (mark_offline_size _ _ _ E) as Hs.
    assert (below fuel (mark_offline u w)) as Hb by (unfold below in *; lia).
    specialize (Hrec u "offline" _ Hb).
    destruct (rec u "offline" (mark_offline u w)); [by etrans| |done].
    destruct Hrec as (Hc' & -> & Hbad). split_and!; [by etrans|done|].
    destruct Hbad as [Hu|Hbad]; [exists u; eauto|by eapply invalid_id_cascade].
  - by eapply shrink_cascade.
Qed.

Lemma send_to_with_eq rec o m u w :
  send_to_with env rec o m u w =
  match active_connections w !! u with
  | None => Ok tt w
  | Some conns =>
      for_each (failures env (clock w) conns) (fun ws => disconnect_with rec ws u)
        (after_writes env o m conns w)
  end.
Proof.
  unfold send_to_with. destruct (active_connections w !! u); [|done].
  unfold bind. by rewrite send_all_eq.
Qed.

Lemma send_to_with_safe fuel rec o m u :
  safe_status env (below fuel) rec →
  safe env (λ w, below (S fuel) w ∧ ∀ ws, ws ∈ connections_of w u → origin_ok w o ws)
       (send_to_with env rec o m u).
Proof.
  intros Hrec w [Hw Ho]. rewrite send_to_with_eq.
  unfold connections_of in Ho.
  destruct (active_connections w !! u) as [conns|] eqn:E; [|reflexivity].
  simpl in Ho.
  pose proof (after_writes_cascade env w o m conns Ho) as Hc.
  pose proof (safe_for_each env (below (S fuel)) (failures env (clock w) conns)
                (λ ws, disconnect_with rec ws u)) as Hloop.
  specialize (Hloop (λ x _, disconnect_with_safe fuel rec x u Hrec)
                    (λ w1 w2 H1 H2, below_cascade _ _ _ H1 H2)
                    (after_writes env o m conns w)
                    (below_cascade _ _ _ Hw Hc)).
  destruct (for_each _ _ _); [by etrans| |done].
  destruct Hloop as (Hc' & -> & Hbad).
  split_and!; [by etrans|done|by eapply invalid_id_cascade].
Qed.

Lemma broadcast_to_chat_with_safe fuel rec chat_id event data exclude_user :
  safe_status env (below fuel) rec →
  safe env (below (S fuel)) (broadcast_to_chat_with env rec chat_id event data exclude_user).
Proof.
  intros Hrec w Hw. unfold broadcast_to_chat_with.
  destruct (chat_subscriptions w !! chat_id) as [users|] eqn:E; [|reflexivity].
  apply (safe_for_each env
           (λ w', below (S fuel) w' ∧ chat_subscriptions w' !! chat_id = Some users)).
  - intros u Hu%elem_of_elements.
    destruct (excluded exclude_user u); [apply safe_ret|].
    eapply safe_weaken; [|by apply send_to_with_safe].
    intros w' [Hb Hs]. split; [done|]. intros ws Hws. exists u.
    unfold subscribers_of. rewrite Hs. done.
  - intros w1 w2 [Hb Hs] Hc. split; [by eapply below_cascade|].
    by rewrite (cas_subscriptions _ _ Hc).
  - done.
Qed.

Lemma broadcast_user_status_body_safe fuel rec :
  safe_status env (below fuel) rec →
  safe_status env (below (S fuel)) (broadcast_user_status_body env rec).
Proof.
  intros Hrec u st w Hw. unfold broadcast_user_status_body.
  destruct (uuid_parse env u) as [uid|] eqn:Eu; [|simpl; split_and!; [reflexivity|done|by left]].
  pose proof (safe_for_each env (below (S fuel)) (map_to_list (chat_subscriptions w))
    (λ '(c, users), if decide (u ∈ users)
                    then broadcast_to_chat_with env rec c (status_event st)
                           (user_status_data uid st) (Some u)
                    else ret tt)) as Hloop.
  lapply Hloop.
  - clear Hloop. intros Hloop.
    specialize (Hloop (λ w1 w2 H1 H2, below_cascade _ _ _ H1 H2) w Hw).
    destruct (for_each _ _ w); [done| |done].
    destruct Hloop as (? & ? & ?). eauto.
  - intros [c users] _. case_decide; [|apply safe_ret].
    by apply broadcast_to_chat_with_safe.
Qed.

(** With more fuel than there are users in the registry,
    [broadcast_user_status] returns or raises, and the world it leaves is
    a [cascade] of the one it started from. *)
Lemma broadcast_user_status_fuel_enough fuel :
  safe_status env (below fuel) (broadcast_user_status_fuel env fuel).
Proof.
  induction fuel as [|fuel IH].
  - intros u st w Hw. unfold below in Hw. lia.
  - intros u st. simpl. by apply broadcast_user_status_body_safe.
Qed.
End Safety.

(** ** The amount of fuel does not matter *)

(** [refines m m']: wherever [m] does not run out of fuel, [m'] does the
    same as [m]. *)
Definition refines {A} (m m' : M A) : Prop := ∀ w, m w ≠ OutOfFuel → m' w = m w.

Lemma refines_refl {A} (m : M A) : refines m m.
Proof. by intros w _. Qed.

Lemma refines_bind {A B} (m m' : M A) (k k' : A → M B) :
  refines m m' → (∀ a, refines (k a) (k' a)) → refines (bind m k) (bind m' k').
Proof.
  intros Hm Hk w. unfold bind. specialize (Hm w).
  destruct (m w) as [a w1|e w1|] eqn:E; [| |done].
  - rewrite Hm by done. apply Hk.
  - by rewrite Hm.
Qed.

Lemma refines_for_each {A} (l : list A) (body body' : A → M unit) :
  (∀ x, refines (body x) (body' x)) → refines (for_each l body) (for_each l body').
Proof.
  intros Hb. induction l as [|x l IH]; simpl; [apply refines_refl|].
  apply refines_bind; [apply Hb|done].
Qed.

(** Two loops whose bodies agree on the worlds of [P] agree there, when [P]
    is kept by the body. *)
Lemma for_each_ext {A} env (P : World → Prop) (l : list A) (body body' : A → M unit) :
  (∀ x w, x ∈ l → P w → body' x w = body x w) → (∀ x, x ∈ l → safe env P (body x)) →
  (∀ w w', P w → cascade w w' → P w') →
  ∀ w, P w → for_each l body' w = for_each l body w.
Proof.
  intros Heq Hsafe HP. induction l as [|x l IH]; intros w Hw; simpl; [done|].
  unfold bind. rewrite Heq by (done || left).
  pose proof (Hsafe x (list_elem_of_here _ _) w Hw) as Hx.
  destruct (body x w) as [[] w1|e w1|]; [|done|done].
  apply IH; [| |by eapply HP].
  - intros y w' Hy. apply Heq. by right.
  - intros y Hy. apply Hsafe. by right.
Qed.

Section Fuel.
Context (env : Env).

Lemma disconnect_with_refines rec rec' ws u :
  (∀ v st, refines (rec v st) (rec' v st)) →
  refines (disconnect_with rec ws u) (disconnect_with rec' ws u).
Proof.
  intros Hrec w. rewrite !disconnect_with_eq.
  destruct (active_connections w !! u) as [conns|]; [|done].
  destruct (pruned ws conns); [apply Hrec|done].
Qed.

Lemma send_to_with_refines rec rec' o m u :
  (∀ v st, refines (rec v st) (rec' v st)) →
  refines (send_to_with env rec o m u) (send_to_with env rec' o m u).
Proof.
  intros Hrec w. rewrite !send_to_with_eq.
  destruct (active_connections w !! u) as [conns|]; [|done].
  apply refines_for_each. intros ws. by apply disconnect_with_refines.
Qed.

Lemma broadcast_to_chat_with_refines rec rec' c event data x :
  (∀ v st, refines (rec v st) (rec' v st)) →
  refines (broadcast_to_chat_with env rec c event data x)
          (broadcast_to_chat_with env rec' c event data x).
Proof.
  intros Hrec w. unfold broadcast_to_chat_with.
  destruct (chat_subscriptions w !! c) as [users|]; [|done].
  apply refines_for_each. intros u.
  destruct (excluded x u); [apply refines_refl|by apply send_to_with_refines].
Qed.

Lemma broadcast_user_status_body_refines rec rec' u st :
  (∀ v st, refines (rec v st) (rec' v st)) →
  refines (broadcast_user_status_body env rec u st)
          (broadcast_user_status_body env rec' u st).
Proof.
  intros Hrec w. unfold broadcast_user_status_body.
  destruct (uuid_parse env u) as [uid|]; [|done].
  apply refines_for_each. intros [c users].
  case_decide; [by apply broadcast_to_chat_with_refines|apply refines_refl].
Qed.

Lemma broadcast_user_status_fuel_S fuel u st :
  refines (broadcast_user_status_fuel env fuel u st)
          (broadcast_user_status_fuel env (S fuel) u st).
Proof.
  revert u st. induction fuel as [|fuel IH]; intros u st; [by intros w|].
  change (refines (broadcast_user_status_body env (broadcast_user_status_fuel env fuel) u st)
            (broadcast_user_status_body env (broadcast_user_status_fuel env (S fuel)) u st)).
  by apply broadcast_user_status_body_refines.
Qed.

Lemma broadcast_user_status_fuel_le fuel fuel' u st :
  fuel ≤ fuel' →
  refines (broadcast_user_status_fuel env fuel u st)
          (broadcast_user_status_fuel env fuel' u st).
Proof.
  induction 1 as [|fuel' _ IH]; [apply refines_refl|].
  intros w Hw. rewrite <-(IH w Hw). apply broadcast_user_status_fuel_S.
  by rewrite (IH w Hw).
Qed.

(** Any fuel above the size of the registry gives the result of
    [broadcast_user_status]. *)
Lemma broadcast_user_status_fuel_any fuel u st w :
  below fuel w →
  broadcast_user_status_fuel env fuel u st w = broadcast_user_status env u st w.
Proof.
  intros Hw. unfold broadcast_user_status.
  assert (below (cascade_fuel w) w) as Hw' by (unfold below, cascade_fuel; lia).
  pose proof (broadcast_user_status_fuel_enough env _ u st w Hw') as H1.
  apply (broadcast_user_status_fuel_le (cascade_fuel w) fuel).
  - unfold below, cascade_fuel in *. lia.
  - by destruct (broadcast_user_status_fuel env (cascade_fuel w) u st w).
Qed.

Lemma broadcast_user_status_safe : safe_status env (λ _, True) (broadcast_user_status env).
Proof.
  intros u st w _. unfold broadcast_user_status.
  apply broadcast_user_status_fuel_enough. unfold below, cascade_fuel. lia.
Qed.

(** *** The equations of the source, for the functions without fuel *)

Lemma disconnect_eq ws u w :
  disconnect env ws u w =
  match active_connections w !! u with
  | None => Ok tt w
  | Some conns =>
      match pruned ws conns with
      | [] => broadcast_user_status env u "offline" (mark_offline u w)
      | conns' => Ok tt (set_active (<[u := conns']> (active_connections w)) w)
      end
  end.
Proof.
  unfold disconnect. rewrite disconnect_with_eq.
  destruct (active_connections w !! u) as [conns|] eqn:E; [|done].
  destruct (pruned ws conns); [|done].
  apply broadcast_user_status_fuel_any.
  pose proof (mark_offline_size _ _ _ E). unfold below, cascade_fuel. lia.
Qed.

Lemma disconnect_safe ws u : safe env (λ _, True) (disconnect env ws u).
Proof.
  intros w _. unfold disconnect.
  apply (disconnect_with_safe env (cascade_fuel w)).
  - apply broadcast_user_status_fuel_enough.
  - unfold below, cascade_fuel. lia.
Qed.

(** A dispatch written over the recursive call at some fuel is the one
    written over [broadcast_user_status]. *)
Lemma disconnect_with_fuel fuel ws u w :
  below (S fuel) w →
  disconnect_with (broadcast_user_status_fuel env fuel) ws u w = disconnect env ws u w.
Proof.
  intros Hw. rewrite disconnect_eq, disconnect_with_eq.
  destruct (active_connections w !! u) as [conns|] eqn:E; [|done].
  destruct (pruned ws conns); [|done].
  apply broadcast_user_status_fuel_any.
  pose proof (mark_offline_size _ _ _ E). unfold below in *. lia.
Qed.

Lemma send_to_eq o m u w :
  send_to env o m u w =
  match active_connections w !! u with
  | None => Ok tt w
  | Some conns =>
      for_each (failures env (clock w) conns) (fun ws => disconnect env ws u)
        (after_writes env o m conns w)
  end.
Proof.
  unfold send_to. rewrite send_to_with_eq.
  destruct (active_connections w !! u) as [conns|]; [|done].
  symmetry. apply (for_each_ext env (below (S (cascade_fuel w)))).
  - intros ws w' _ Hw'. symmetry. by apply disconnect_with_fuel.
  - intros ws _. apply disconnect_with_safe.
    apply broadcast_user_status_fuel_enough.
  - intros ????. by eapply below_cascade.
  - unfold below, cascade_fuel. simpl. lia.
Qed.

Lemma send_to_with_fuel fuel o m u w :
  below (S fuel) w →
  send_to_with env (broadcast_user_status_fuel env fuel) o m u w = send_to env o m u w.
Proof.
  intros Hw. rewrite send_to_eq, send_to_with_eq.
  destruct (active_connections w !! u) as [conns|]; [|done].
  apply (for_each_ext env (below (S fuel))).
  - intros ws w' _ Hw'. by apply disconnect_with_fuel.
  - intros ws _. apply safe_weaken with (Q := λ _, True); [done|apply disconnect_safe].
  - intros ????. by eapply below_cascade.
  - done.
Qed.

Lemma send_to_safe o m u :
  safe env (λ w, ∀ ws, ws ∈ connections_of w u → origin_ok w o ws) (send_to env o m u).
Proof.
  intros w Hw. unfold send_to.
  apply (send_to_with_safe env (cascade_fuel w)).
  - apply broadcast_user_status_fuel_enough.
  - split; [unfold below, cascade_fuel; lia|done].
Qed.

Lemma broadcast_to_chat_eq c event data x w :
  broadcast_to_chat env c event data x w =
  match chat_subscriptions w !! c with
  | None => Ok tt w
  | Some users =>
      for_each (elements users) (fun user_id =>
        if excluded x user_id then ret tt
        else send_to env (ToChat c) (mkWSMessage event data) user_id) w
  end.
Proof.
  unfold broadcast_to_chat, broadcast_to_chat_with.
  destruct (chat_subscriptions w !! c) as [users|] eqn:E; [|done].
  apply (for_each_ext env
           (λ w', below (S (cascade_fuel w)) w' ∧ chat_subscriptions w' !! c = Some users)).
  - intros u w' _ [Hw' _]. destruct (excluded x u); [done|]. by apply send_to_with_fuel.
  - intros u Hu%elem_of_elements. destruct (excluded x u); [apply safe_ret|].
    eapply safe_weaken; [|apply send_to_safe].
    intros w' [_ Hs] ws Hws. exists u. unfold subscribers_of. by rewrite Hs.
  - intros w1 w2 [Hb Hs] Hc. split; [by eapply below_cascade|].
    by rewrite (cas_subscriptions _ _ Hc).
  - split; [unfold below, cascade_fuel; lia|done].
Qed.

Lemma broadcast_to_chat_safe c event data x :
  safe env (λ _, True) (broadcast_to_chat env c event data x).
Proof.
  intros w _. unfold broadcast_to_chat.
  apply (broadcast_to_chat_with_safe env (cascade_fuel w)).
  - apply broadcast_user_status_fuel_enough.
  - unfold below, cascade_fuel. lia.
Qed.

Lemma broadcast_to_chat_with_fuel fuel c event data x w :
  below (S fuel) w →
  broadcast_to_chat_with env (broadcast_user_status_fuel env fuel) c event data x w =
  broadcast_to_chat env c event data x w.
Proof.
  intros Hw. rewrite broadcast_to_chat_eq. unfold broadcast_to_chat_with.
  destruct (chat_subscriptions w !! c) as [users|] eqn:E; [|done].
  apply (for_each_ext env
           (λ w', below (S fuel) w' ∧ chat_subscriptions w' !! c = Some users)).
  - intros u w' _ [Hw' _]. destruct (excluded x u); [done|]. by apply send_to_with_fuel.
  - intros u Hu%elem_of_elements. destruct (excluded x u); [apply safe_ret|].
    eapply safe_weaken; [|apply send_to_safe].
    intros w' [_ Hs] ws Hws. exists u. unfold subscribers_of. by rewrite Hs.
  - intros w1 w2 [Hb Hs] Hc. split; [by eapply below_cascade|].
    by rewrite (cas_subscriptions _ _ Hc).
  - done.
Qed.

Lemma broadcast_user_status_eq u st w :
  broadcast_user_status env u st w =
  match uuid_parse env u with
  | None => Raise ValueError w
  | Some uid =>
      for_each (map_to_list (chat_subscriptions w)) (fun '(chat_id, users) =>
        if decide (u ∈ users)
        then broadcast_to_chat env chat_id (status_event st)
               (user_status_data uid st) (Some u)
        else ret tt) w
  end.
Proof.
  unfold broadcast_user_status, cascade_fuel. simpl. unfold broadcast_user_status_body.
  destruct (uuid_parse env u) as [uid|]; [|done].
  apply (for_each_ext env (below (S (size (active_connections w))))).
  - intros [c users] w' _ Hw'. case_decide; [|done]. by apply broadcast_to_chat_with_fuel.
  - intros [c users] _. case_decide; [|apply safe_ret].
    apply safe_weaken with (Q := λ _, True); [done|apply broadcast_to_chat_safe].
  - intros ????. by eapply below_cascade.
  - unfold below. lia.
Qed.
End Fuel.

(** ** The registry invariant *)

(** Every entry of the registry is a non-empty list without repetition, a
    socket belongs to one user, and only accepted transports are
    registered. *)
Record registry_wf (w : World) : Prop := mkRegistryWf {
  wf_nonempty : ∀ u l, active_connections w !! u = Some l → l ≠ [];
  wf_NoDup : ∀ u l, active_connections w !! u = Some l → NoDup l;
  wf_owner : ∀ u v ws, ws ∈ connections_of w u → ws ∈ connections_of w v → u = v;
  wf_accepted : ∀ u ws, ws ∈ connections_of w u → ws ∈ accepted w;
}.

Lemma registry_wf_cascade w w' : cascade w w' → registry_wf w → registry_wf w'.
Proof.
  intros Hc Hwf. split.
  - intros u l' E. destruct (cas_registry _ _ Hc _ _ E) as (l & El & _ & Hnil).
    intros ->. by eapply (wf_nonempty _ Hwf), Hnil.
  - intros u l' E. destruct (cas_registry _ _ Hc _ _ E) as (l & El & Hsub & _).
    eapply sublist_NoDup; [|done]. by eapply wf_NoDup.
  - intros u v ws Hu Hv. eapply (wf_owner _ Hwf); by eapply connections_of_cascade.
  - intros u ws Hu. rewrite (cas_accepted _ _ Hc).
    eapply (wf_accepted _ Hwf), connections_of_cascade; eauto.
Qed.

(** [keeps m]: [m] does not run out of fuel and keeps the invariant,
    whether it returns or raises. *)
Definition keeps {A} (m : M A) : Prop :=
  ∀ w, registry_wf w → match m w with
                       | Ok _ w' | Raise _ w' => registry_wf w'
                       | OutOfFuel => False
                       end.

Lemma keeps_safe {A} env (P : World → Prop) (m : M A) : (∀ w, P w) → safe env P m → keeps m.
Proof.
  intros HP Hm w Hwf. specialize (Hm w (HP w)).
  destruct (m w); [|destruct Hm|]; eauto using registry_wf_cascade.
Qed.

Lemma keeps_bind {A B} (m : M A) (k : A → M B) :
  keeps m → (∀ a, keeps (k a)) → keeps (bind m k).
Proof.
  intros Hm Hk w Hwf. unfold bind. specialize (Hm w Hwf).
  destruct (m w) as [a w1|e w1|]; [|done|done]. by apply Hk.
Qed.

Lemma keeps_ret {A} (a : A) : keeps (ret a).
Proof. by intros w Hwf. Qed.

Lemma keeps_raise {A} e : keeps (raise (A:=A) e).
Proof. by intros w Hwf. Qed.

Lemma keeps_for_each {A} (l : list A) (body : A → M unit) :
  (∀ x, keeps (body x)) → keeps (for_each l body).
Proof.
  intros Hb. induction l as [|x l IH]; simpl; [apply keeps_ret|].
  apply keeps_bind; [apply Hb|done].
Qed.

(** A change of the world outside the registry and the accepted set. *)
Lemma keeps_modify (f : World → World) :
  (∀ w, active_connections (f w) = active_connections w ∧ accepted (f w) = accepted w) →
  keeps (modify f).
Proof.
  intros Hf w [H1 H2 H3 H4]. simpl. destruct (Hf w) as [Ha Hb].
  split; intros *; unfold connections_of in *; rewrite ?Ha, ?Hb; eauto.
Qed.

Lemma keeps_redis_set key : keeps (redis_manager.set key).
Proof. apply keeps_modify. intros w. by destruct (redis w). Qed.

Lemma keeps_redis_delete key : keeps (redis_manager.delete key).
Proof. apply keeps_modify. intros w. by destruct (redis w). Qed.

Section Invariant.
Context (env : Env).

Lemma keeps_subscribe u c : keeps (subscribe_to_chat u c).
Proof. by apply keeps_modify. Qed.

Lemma keeps_unsubscribe u c : keeps (unsubscribe_from_chat u c).
Proof. apply keeps_modify. intros w. by destruct (chat_subscriptions w !! c). Qed.

Lemma keeps_disconnect ws u : keeps (disconnect env ws u).
Proof. apply (keeps_safe env (λ _, True)); [done|apply disconnect_safe]. Qed.

Lemma keeps_broadcast_to_chat c event data x : keeps (broadcast_to_chat env c event data x).
Proof. apply (keeps_safe env (λ _, True)); [done|apply broadcast_to_chat_safe]. Qed.

Lemma keeps_broadcast_user_status u st : keeps (broadcast_user_status env u st).
Proof.
  intros w Hwf. pose proof (broadcast_user_status_safe env u st w I) as Hs.
  destruct (broadcast_user_status env u st w); [|destruct Hs|];
    eauto using registry_wf_cascade.
Qed.

Lemma keeps_send_personal_message u event data :
  keeps (send_personal_message env u event data).
Proof.
  eapply keeps_safe; [|apply send_to_safe]. by intros w ws Hws.
Qed.

Lemma keeps_UUID x : keeps (UUID env x).
Proof.
  destruct x; try apply keeps_raise. simpl.
  destruct (uuid_parse env s); [apply keeps_ret|apply keeps_raise].
Qed.

(** Registering a transport that was just accepted. *)
Lemma register_wf ws u w :
  registry_wf w → ws ∉ accepted w →
  registry_wf
    (set_active (<[u := default [] (active_connections w !! u) ++ [ws]]>
                   (active_connections w))
                (set_accepted ({[ws]} ∪ accepted w) w)).
Proof.
  intros Hwf Hfresh.
  assert (∀ v, ws ∉ connections_of w v) as Hnew.
  { intros v Hv. by apply Hfresh, (wf_accepted _ Hwf v). }
  assert (∀ v x, x ∈ connections_of
            (set_active (<[u := default [] (active_connections w !! u) ++ [ws]]>
                           (active_connections w))
                        (set_accepted ({[ws]} ∪ accepted w) w)) v ↔
            x ∈ connections_of w v ∨ (v = u ∧ x = ws)) as Hconn.
  { intros v x. unfold connections_of. simpl.
    destruct (decide (u = v)) as [->|Hne].
    - rewrite lookup_insert_eq. simpl. rewrite elem_of_app, list_elem_of_singleton.
      intuition congruence.
    - rewrite lookup_insert_ne by done. intuition congruence. }
  split.
  - simpl. intros v l [[-> <-]|[_ E]]%lookup_insert_Some.
    + by intros [_ ?]%app_eq_nil.
    + by eapply wf_nonempty.
  - simpl. intros v l [[-> <-]|[_ E]]%lookup_insert_Some.
    + apply NoDup_app. split_and!.
      * destruct (active_connections w !! v) eqn:E; simpl; [by eapply wf_NoDup|constructor].
      * intros x Hx ->%list_elem_of_singleton. by apply (Hnew v).
      * apply NoDup_singleton.
    + by eapply wf_NoDup.
  - intros v1 v2 x H1 H2. apply Hconn in H1, H2.
    destruct H1 as [H1|[-> ->]], H2 as [H2|[-> E2]]; subst.
    + by eapply wf_owner.
    + by destruct (Hnew v1).
    + by destruct (Hnew v2).
    + done.
  - intros v x H1. apply Hconn in H1. simpl. destruct H1 as [H1|[-> ->]].
    + apply elem_of_union_r. by eapply wf_accepted.
    + apply elem_of_union_l. by apply elem_of_singleton.
Qed.

Lemma keeps_connect ws u : keeps (connect env ws u).
Proof.
  assert (keeps (redis_manager.set_user_online u ;; broadcast_user_status env u "online"))
    as Hrest.
  { apply keeps_bind; [apply keeps_redis_set|intros _; apply keeps_broadcast_user_status]. }
  intros w Hwf. unfold connect. unfold bind at 1. unfold accept.
  destruct (decide (ws ∈ accepted w)) as [|Hfresh]; [done|].
  unfold bind at 1. unfold modify.
  apply Hrest. exact (register_wf ws u w Hwf Hfresh).
Qed.

Lemma keeps_send_typing_status c u name b : keeps (send_typing_status env c u name b).
Proof.
  unfold send_typing_status.
  apply keeps_bind; [apply keeps_UUID|intros c'].
  apply keeps_bind; [apply keeps_UUID|intros u'].
  apply keeps_bind; [apply keeps_broadcast_to_chat|intros _].
  unfold redis_manager.set_user_typing.
  destruct b; [apply keeps_redis_set|apply keeps_redis_delete].
Qed.

Lemma keeps_send_message_update c m content b : keeps (send_message_update env c m content b).
Proof.
  unfold send_message_update.
  apply keeps_bind; [apply keeps_UUID|intros m'].
  apply keeps_bind; [apply keeps_UUID|intros c'].
  apply keeps_broadcast_to_chat.
Qed.

Lemma keeps_send_message_delete c m b : keeps (send_message_delete env c m b).
Proof.
  unfold send_message_delete.
  apply keeps_bind; [apply keeps_UUID|intros m'].
  apply keeps_bind; [apply keeps_UUID|intros c'].
  apply keeps_broadcast_to_chat.
Qed.

Lemma keeps_send_read_receipt c u m : keeps (send_read_receipt env c u m).
Proof.
  unfold send_read_receipt.
  apply keeps_bind; [apply keeps_UUID|intros c'].
  apply keeps_bind; [apply keeps_UUID|intros u'].
  apply keeps_bind; [apply keeps_UUID|intros m'].
  apply keeps_broadcast_to_chat.
Qed.
End Invariant.

(** *** Sequences of calls on the manager *)

Inductive Call :=
  | CallConnect (ws : WebSocket) (user_id : string)
  | CallDisconnect (ws : WebSocket) (user_id : string)
  | CallSubscribe (user_id chat_id : string)
  | CallUnsubscribe (user_id chat_id : string)
  | CallSendPersonal (user_id : string) (event : WSEventType) (data : json)
  | CallBroadcast (chat_id : string) (event : WSEventType) (data : json)
      (exclude_user : option string)
  | CallTyping (chat_id user_id username : string) (is_typing : bool)
  | CallNewMessage (chat_id : string) (message_data : json) (sender_id : string)
  | CallMessageUpdate (chat_id message_id content : string) (is_edited : bool)
  | CallMessageDelete (chat_id message_id : string) (deleted_for_everyone : bool)
  | CallReadReceipt (chat_id user_id : string) (message_id : json).

Definition perform (env : Env) (c : Call) : M unit :=
  match c with
  | CallConnect ws u => connect env ws u
  | CallDisconnect ws u => disconnect env ws u
  | CallSubscribe u c => subscribe_to_chat u c
  | CallUnsubscribe u c => unsubscribe_from_chat u c
  | CallSendPersonal u e d => send_personal_message env u e d
  | CallBroadcast c e d x => broadcast_to_chat env c e d x
  | CallTyping c u n b => send_typing_status env c u n b
  | CallNewMessage c d s => send_new_message env c d s
  | CallMessageUpdate c m t b => send_message_update env c m t b
  | CallMessageDelete c m b => send_message_delete env c m b
  | CallReadReceipt c u m => send_read_receipt env c u m
  end.

(** The world after the calls, each run to its return or to the exception
    it raises; [None] if one of them ran out of fuel. *)
Fixpoint run_calls (env : Env) (calls : list Call) (w : World) : option World :=
  match calls with
  | [] => Some w
  | c :: rest =>
      match perform env c w with
      | Ok _ w' | Raise _ w' => run_calls env rest w'
      | OutOfFuel => None
      end
  end.

(** A manager that was just constructed, beside a Redis in any state. *)
Definition fresh (r : option (gset string)) : World := mkWorld ∅ ∅ r ∅ 0 [].

Lemma fresh_wf r : registry_wf (fresh r).
Proof.
  split; unfold connections_of; simpl.
  - by intros u l ?%lookup_empty_Some.
  - by intros u l ?%lookup_empty_Some.
  - intros u v ws. rewrite lookup_empty. by intros ?%elem_of_nil.
  - intros u ws. rewrite lookup_empty. by intros ?%elem_of_nil.
Qed.

Lemma keeps_perform env c : keeps (perform env c).
Proof.
  destruct c; simpl.
  - apply keeps_connect.
  - apply keeps_disconnect.
  - apply keeps_subscribe.
  - apply keeps_unsubscribe.
  - apply keeps_send_personal_message.
  - apply keeps_broadcast_to_chat.
  - apply keeps_send_typing_status.
  - apply keeps_broadcast_to_chat.
  - apply keeps_send_message_update.
  - apply keeps_send_message_delete.
  - apply keeps_send_read_receipt.
Qed.

Lemma run_calls_wf env calls w :
  registry_wf w → ∃ w', run_calls env calls w = Some w' ∧ registry_wf w'.
Proof.
  revert w. induction calls as [|c calls IH]; intros w Hwf; simpl; [eauto|].
  pose proof (keeps_perform env c w Hwf) as Hc.
  destruct (perform env c w) as [[] w1|e w1|]; [by apply IH|by apply IH|done].
Qed.

Lemma is_user_online_spec u w :
  registry_wf w → (is_user_online u w = true ↔ ∃ ws, ws ∈ connections_of w u).
Proof.
  intros Hwf. unfold is_user_online, connections_of.
  rewrite bool_decide_eq_true. split.
  - intros [l E]. rewrite E. simpl. pose proof (wf_nonempty _ Hwf _ _ E).
    destruct l as [|ws l]; [done|]. exists ws. left.
  - intros [ws Hws]. destruct (active_connections w !! u); [done|].
    by apply elem_of_nil in Hws.
Qed.

(** C3.  Whatever calls are made on a manager, starting from its
    construction: none of them fails to terminate, every key of
    [active_connections] then maps to a non-empty list without repetition,
    and [is_user_online] holds of exactly the users that have a registered
    connection. *)
Theorem registry_invariant (env : Env) (r : option (gset string)) (calls : list Call) :
  ∃ w, run_calls env calls (fresh r) = Some w ∧
       (∀ u l, active_connections w !! u = Some l → l ≠ [] ∧ NoDup l) ∧
       (∀ u, is_user_online u w = true ↔ ∃ ws, ws ∈ connections_of w u).
Proof.
  destruct (run_calls_wf env calls (fresh r) (fresh_wf r)) as (w & Hrun & Hwf).
  exists w. split_and!; [done| |].
  - intros u l E. split; [by eapply wf_nonempty|by eapply wf_NoDup].
  - intros u. by apply is_user_online_spec.
Qed.

(** ** Fan-out when no write fails *)

(** The world after the observations [new], each of them one write. *)
Definition deliver (new : list Obs) (w : World) : World :=
  mkWorld (active_connections w) (chat_subscriptions w) (redis w) (accepted w)
          (clock w + length new) (trace w ++ new).

(** One message written to each socket of a list. *)
Definition fanout (o : Origin) (m : WSMessage) (conns : list WebSocket) : list Obs :=
  (λ ws, Delivered o ws m) <$> conns.

(** What [broadcast_to_chat] writes: the message, to the sockets of every
    subscriber that is not excluded. *)
Definition chat_fanout (w : World) (chat_id : string) (m : WSMessage)
    (exclude_user : option string) : list Obs :=
  elements (subscribers_of w chat_id) ≫= λ user_id,
    if excluded exclude_user user_id then []
    else fanout (ToChat chat_id) m (connections_of w user_id).

(** What [broadcast_user_status] writes: one fan-out for each chat the user
    is subscribed to, the user excluded. *)
Definition status_fanout (w : World) (user_id uid status : string) : list Obs :=
  map_to_list (chat_subscriptions w) ≫= λ '((chat_id, users) : string * gset string),
    if decide (user_id ∈ users)
    then chat_fanout w chat_id
           (mkWSMessage (status_event status) (user_status_data uid status)) (Some user_id)
    else [].

Definition no_write_failures (env : Env) : Prop := ∀ n ws, write_outcome env n ws = None.

Lemma deliver_nil w : deliver [] w = w.
Proof. destruct w. unfold deliver. simpl. by rewrite Nat.add_0_r, app_nil_r. Qed.

Lemma deliver_app a b w : deliver (a ++ b) w = deliver b (deliver a w).
Proof.
  unfold deliver. simpl. rewrite length_app, app_assoc. f_equal. lia.
Qed.

Lemma connections_of_deliver new w u : connections_of (deliver new w) u = connections_of w u.
Proof. done. Qed.

Lemma subscribers_of_deliver new w c : subscribers_of (deliver new w) c = subscribers_of w c.
Proof. done. Qed.

(** A loop whose turns only write. *)
Lemma for_each_deliver {A} (l : list A) (body : A → M unit) (f : A → list Obs) w :
  (∀ x new, body x (deliver new w) = Ok tt (deliver (new ++ f x) w)) →
  for_each l body w = Ok tt (deliver (l ≫= f) w).
Proof.
  intros Hbody. rewrite <-(deliver_nil w) at 1.
  change (l ≫= f) with ([] ++ (l ≫= f)). generalize (@nil Obs) as acc.
  induction l as [|x l IH]; intros acc.
  - simpl. by rewrite app_nil_r.
  - rewrite bind_cons. simpl. unfold bind at 1. rewrite Hbody, IH. by rewrite app_assoc.
Qed.

Section NoFailure.
Context (env : Env) (Hnf : no_write_failures env).

Lemma attempts_fanout o m n l : attempts env o m n l = fanout o m l.
Proof.
  revert n. induction l as [|ws l IH]; intros n; simpl; [done|].
  unfold fanout in *. by rewrite Hnf, IH.
Qed.

Lemma failures_none n l : failures env n l = [].
Proof. revert n. induction l as [|ws l IH]; intros n; simpl; [done|]. by rewrite Hnf. Qed.

Lemma send_to_deliver o m u w :
  send_to env o m u w = Ok tt (deliver (fanout o m (connections_of w u)) w).
Proof.
  rewrite send_to_eq. unfold connections_of.
  destruct (active_connections w !! u) as [conns|]; simpl.
  - rewrite failures_none. simpl. unfold after_writes, deliver, ret, fanout.
    by rewrite attempts_fanout, length_fmap.
  - by rewrite deliver_nil.
Qed.

Lemma broadcast_to_chat_deliver c event data x w :
  broadcast_to_chat env c event data x w =
  Ok tt (deliver (chat_fanout w c (mkWSMessage event data) x) w).
Proof.
  rewrite broadcast_to_chat_eq. unfold chat_fanout, subscribers_of.
  destruct (chat_subscriptions w !! c) as [users|]; simpl.
  - apply for_each_deliver. intros u new.
    destruct (excluded x u).
    + by rewrite app_nil_r.
    + rewrite send_to_deliver, deliver_app. reflexivity.
  - by rewrite elements_empty, deliver_nil.
Qed.

Lemma broadcast_user_status_deliver u uid st w :
  uuid_parse env u = Some uid →
  broadcast_user_status env u st w = Ok tt (deliver (status_fanout w u uid st) w).
Proof.
  intros Hu. rewrite broadcast_user_status_eq, Hu. unfold status_fanout.
  apply for_each_deliver. intros [c users] new. cbv beta iota.
  destruct (decide (u ∈ users)).
  - rewrite broadcast_to_chat_deliver, deliver_app. reflexivity.
  - by rewrite app_nil_r.
Qed.
End NoFailure.

(** *** Counting what a socket receives *)

Lemma deliveries_to_app ws a b :
  deliveries_to ws (a ++ b) = deliveries_to ws a ++ deliveries_to ws b.
Proof.
  induction a as [|[o ws' m|o ws' m|ws' code] a IH]; simpl; [done| |done|done].
  case_decide; simpl; by rewrite IH.
Qed.

Lemma deliveries_to_fanout_notin ws o m l :
  ws ∉ l → deliveries_to ws (fanout o m l) = [].
Proof.
  induction l as [|y l IH]; simpl; [done|].
  intros [? ?]%not_elem_of_cons. case_decide; [congruence|auto].
Qed.

Lemma deliveries_to_fanout_in ws o m l :
  NoDup l → ws ∈ l → deliveries_to ws (fanout o m l) = [m].
Proof.
  induction 1 as [|y l Hy Hl IH]; simpl; [by intros ?%elem_of_nil|].
  intros [->|Hin]%elem_of_cons.
  - rewrite decide_True by done. by rewrite deliveries_to_fanout_notin.
  - rewrite decide_False by (intros ->; done). auto.
Qed.

Section Counting.
Context (w : World) (Hwf : registry_wf w).

Lemma connections_of_NoDup u : NoDup (connections_of w u).
Proof.
  unfold connections_of. destruct (active_connections w !! u) eqn:E; simpl.
  - by eapply wf_NoDup.
  - constructor.
Qed.

(** The fan-out over a list of users without repetition, seen from a
    socket of the user [v]. *)
Lemma deliveries_to_users ws v c m x (users : list string) :
  NoDup users → ws ∈ connections_of w v →
  deliveries_to ws (users ≫= λ u,
      if excluded x u then [] else fanout (ToChat c) m (connections_of w u)) =
  if decide (v ∈ users) then (if excluded x v then [] else [m]) else [].
Proof.
  intros Hnd Hws. induction Hnd as [|u users Hu Hnd IH]; [done|].
  rewrite bind_cons, deliveries_to_app, IH. destruct (decide (u = v)) as [->|Hne].
  - rewrite (decide_True (P := v ∈ v :: users)); [|left].
    rewrite (decide_False (P := v ∈ users)); [|done].
    rewrite app_nil_r. destruct (excluded x v); [done|].
    apply deliveries_to_fanout_in; [apply connections_of_NoDup|done].
  - assert (deliveries_to ws (if excluded x u then []
              else fanout (ToChat c) m (connections_of w u)) = []) as ->.
    { destruct (excluded x u); [done|]. apply deliveries_to_fanout_notin.
      intros Hin. apply Hne. by eapply wf_owner. }
    simpl. destruct (decide (v ∈ users)).
    + by rewrite decide_True by (by right).
    + rewrite decide_False; [done|]. by intros [?|?]%elem_of_cons.
Qed.

Lemma deliveries_to_chat_fanout ws v c m x :
  ws ∈ connections_of w v →
  deliveries_to ws (chat_fanout w c m x) =
  if decide (v ∈ subscribers_of w c) then (if excluded x v then [] else [m]) else [].
Proof.
  intros Hws. unfold chat_fanout.
  rewrite (deliveries_to_users ws v) by (done || apply NoDup_elements).
  destruct (decide (v ∈ elements (subscribers_of w c))) as [Hin|Hin];
    rewrite elem_of_elements in Hin.
  - by rewrite decide_True.
  - by rewrite decide_False.
Qed.
End Counting.

Lemma excluded_spec x u : excluded (Some x) u = true ↔ x ≠ "" ∧ u = x.
Proof.
  unfold excluded. rewrite andb_true_iff, negb_true_iff.
  rewrite String.eqb_neq, String.eqb_eq. done.
Qed.

(** C2.  When no write fails, [broadcast_to_chat(C, E, exclude_user=U)]
    returns, writes nothing to a socket of [U], and writes [E] exactly once
    to every socket of every other subscriber of [C].  [U] is a user id,
    the text of a UUID, hence not the empty string. *)
Theorem broadcast_to_chat_delivery (env : Env) (w : World)
    (C : string) (event : WSEventType) (data : json) (U : string) :
  no_write_failures env → registry_wf w → U ≠ "" →
  ∃ new,
    broadcast_to_chat env C event data (Some U) w = Ok tt (deliver new w) ∧
    (∀ ws, ws ∈ connections_of w U → deliveries_to ws new = []) ∧
    (∀ V ws, V ∈ subscribers_of w C → V ≠ U → ws ∈ connections_of w V →
             deliveries_to ws new = [mkWSMessage event data]).
Proof.
  intros Hnf Hwf HU. eexists. split; [by apply broadcast_to_chat_deliver|]. split.
  - intros ws Hws. rewrite (deliveries_to_chat_fanout w Hwf ws U) by done.
    case_decide; [|done]. by rewrite (proj2 (excluded_spec U U)).
  - intros V ws HV Hne Hws. rewrite (deliveries_to_chat_fanout w Hwf ws V) by done.
    rewrite decide_True by done.
    destruct (excluded (Some U) V) eqn:E; [|done].
    apply excluded_spec in E as [_ ?]. done.
Qed.

(** ** Presence on the last disconnect *)

(** The number of chats whose subscription set holds both users. *)
Definition shared_chats (w : World) (u v : string) : nat :=
  length (filter (λ p : string * gset string, u ∈ p.2 ∧ v ∈ p.2)
                 (map_to_list (chat_subscriptions w))).

Lemma connections_of_mark_offline u w v :
  connections_of (mark_offline u w) v = if decide (v = u) then [] else connections_of w v.
Proof.
  destruct w as [ac cs r a c t]. unfold mark_offline, connections_of. simpl.
  destruct r; simpl; case_decide as Hv; subst;
    by rewrite ?lookup_delete_eq, ?lookup_delete_ne.
Qed.

Lemma chat_subscriptions_mark_offline u w :
  chat_subscriptions (mark_offline u w) = chat_subscriptions w.
Proof. destruct w as [ac cs r a c t]. unfold mark_offline. simpl. by destruct r. Qed.

Lemma deliveries_to_users_unregistered w ws c m x (users : list string) :
  (∀ u, ws ∉ connections_of w u) →
  deliveries_to ws (users ≫= λ u,
      if excluded x u then [] else fanout (ToChat c) m (connections_of w u)) = [].
Proof.
  intros Hws. induction users as [|u users IH]; [done|].
  rewrite bind_cons, deliveries_to_app, IH, app_nil_r.
  destruct (excluded x u); [done|]. by apply deliveries_to_fanout_notin.
Qed.

Lemma deliveries_to_status_fanout_unregistered w ws u uid st :
  (∀ v, ws ∉ connections_of w v) → deliveries_to ws (status_fanout w u uid st) = [].
Proof.
  intros Hws. unfold status_fanout.
  induction (map_to_list (chat_subscriptions w)) as [|[c users] l IH]; [done|].
  rewrite bind_cons, deliveries_to_app, IH, app_nil_r.
  case_decide; [|done]. by apply deliveries_to_users_unregistered.
Qed.

Lemma deliveries_to_status_fanout w ws u v uid st :
  registry_wf w → v ≠ u → ws ∈ connections_of w v →
  deliveries_to ws (status_fanout w u uid st) =
  replicate (shared_chats w u v) (mkWSMessage (status_event st) (user_status_data uid st)).
Proof.
  intros Hwf Hne Hws. unfold status_fanout, shared_chats.
  assert (∀ p, p ∈ map_to_list (chat_subscriptions w) →
               subscribers_of w p.1 = p.2) as Hl.
  { intros [c users] Hp%elem_of_map_to_list. unfold subscribers_of. simpl. by rewrite Hp. }
  induction (map_to_list (chat_subscriptions w)) as [|[c users] l IH]; [done|].
  rewrite bind_cons, deliveries_to_app, IH by (intros p Hp; apply Hl; by right).
  rewrite filter_cons. simpl.
  specialize (Hl (c, users) (list_elem_of_here _ _)). simpl in Hl.
  destruct (decide (u ∈ users)) as [Hu|Hu].
  - rewrite (deliveries_to_chat_fanout w Hwf ws v) by done. rewrite Hl.
    destruct (decide (v ∈ users)) as [Hv|Hv].
    + rewrite decide_True by done.
      destruct (excluded (Some u) v) eqn:E; [|done].
      apply excluded_spec in E as [_ ?]. done.
    + rewrite decide_False by tauto. done.
  - rewrite decide_False by tauto. done.
Qed.

Lemma elem_of_status_fanout w u uid st c v ws :
  u ∈ subscribers_of w c → v ∈ subscribers_of w c → v ≠ u → ws ∈ connections_of w v →
  Delivered (ToChat c) ws (mkWSMessage (status_event st) (user_status_data uid st))
    ∈ status_fanout w u uid st.
Proof.
  intros Hu Hv Hne Hws. unfold status_fanout, subscribers_of in *.
  destruct (chat_subscriptions w !! c) as [users|] eqn:E; simpl in *;
    [|by apply elem_of_empty in Hu].
  apply list_elem_of_bind. exists (c, users). split; [|by apply elem_of_map_to_list].
  rewrite decide_True by done. unfold chat_fanout, subscribers_of. rewrite E.
  apply list_elem_of_bind. exists v. split; [|by apply elem_of_elements].
  destruct (excluded (Some u) v) eqn:Ex.
  - apply excluded_spec in Ex as [_ ?]. done.
  - unfold fanout. apply list_elem_of_fmap. eauto.
Qed.

(** C4.  When no write fails and the last socket of [U] disconnects: for
    every chat [C] that [U] is subscribed to, the user-offline event is
    written to every socket of every other subscriber of [C]; nothing is
    written to the socket of [U]; and a socket of another user [V] receives
    the event once for each chat that [V] shares with [U], so twice for two
    shared chats. *)
Theorem last_disconnect_presence (env : Env) (w : World) (ws : WebSocket) (U uid : string) :
  no_write_failures env → registry_wf w →
  active_connections w !! U = Some [ws] → uuid_parse env U = Some uid →
  let offline := mkWSMessage USER_OFFLINE (user_status_data uid "offline") in
  ∃ new,
    disconnect env ws U w = Ok tt (deliver new (mark_offline U w)) ∧
    (∀ C V x, U ∈ subscribers_of w C → V ∈ subscribers_of w C → V ≠ U →
              x ∈ connections_of w V → Delivered (ToChat C) x offline ∈ new) ∧
    deliveries_to ws new = [] ∧
    (∀ V x, V ≠ U → x ∈ connections_of w V →
            deliveries_to x new = replicate (shared_chats w U V) offline).
Proof.
  intros Hnf Hwf HU Huid offline.
  pose proof (registry_wf_cascade _ _ (mark_offline_cascade _ _ _ HU) Hwf) as Hwf'.
  assert (∀ V, V ≠ U → connections_of (mark_offline U w) V = connections_of w V) as Hother.
  { intros V HV. rewrite connections_of_mark_offline. by rewrite decide_False. }
  assert (∀ C, subscribers_of (mark_offline U w) C = subscribers_of w C) as Hsubs.
  { intros C. unfold subscribers_of. by rewrite chat_subscriptions_mark_offline. }
  exists (status_fanout (mark_offline U w) U uid "offline"). split_and!.
  - rewrite disconnect_eq, HU. unfold pruned. rewrite decide_True by left. simpl.
    rewrite decide_True by done. by apply broadcast_user_status_deliver.
  - intros C V x HUC HVC Hne Hx.
    apply (elem_of_status_fanout (mark_offline U w) U uid "offline" C V x);
      rewrite ?Hsubs, ?Hother; done.
  - apply deliveries_to_status_fanout_unregistered. intros V.
    rewrite connections_of_mark_offline. case_decide as HV; [by intros ?%elem_of_nil|].
    intros Hin. apply HV. apply (wf_owner _ Hwf V U ws Hin).
    unfold connections_of. rewrite HU. left.
  - intros V x Hne Hx.
    rewrite (deliveries_to_status_fanout (mark_offline U w) x U V) by (rewrite ?Hother; done).
    unfold shared_chats. by rewrite chat_subscriptions_mark_offline.
Qed.

(** ** What a call wrote *)

(** The world after a computation, whether it returned or raised. *)
Definition run {A} (m : M A) (w : World) : World := world_of (m w) w.

(** The observations that a computation started in [w] added. *)
Definition writes_of {A} (r : Result A) (w : World) : list Obs :=
  drop (length (trace w)) (trace (world_of r w)).

Lemma writes_of_app {A} (r : Result A) w new :
  trace (world_of r w) = trace w ++ new → writes_of r w = new.
Proof. intros E. unfold writes_of. by rewrite E, drop_app_length. Qed.

Lemma writes_of_same {A} (r : Result A) w :
  trace (world_of r w) = trace w → writes_of r w = [].
Proof. intros E. apply writes_of_app. by rewrite app_nil_r. Qed.

Lemma writes_of_cascade {A} (r : Result A) w :
  cascade w (world_of r w) → Forall (entry_ok w) (writes_of r w).
Proof. intros Hc. destruct (cas_trace _ _ Hc) as (new & E & Hnew). by rewrite (writes_of_app _ _ _ E). Qed.

Lemma for_each_skip {A} (l : list A) (body : A → M unit) w :
  (∀ x, x ∈ l → body x w = Ok tt w) → for_each l body w = Ok tt w.
Proof.
  induction l as [|x l IH]; intros Hb; simpl; [done|].
  unfold bind. rewrite Hb by left. apply IH. intros y Hy. apply Hb. by right.
Qed.

(** ** The online broadcast of [connect] comes before the subscriptions *)

(** The world in which [connect] broadcasts: the transport accepted, the
    socket appended to the entry of the user, the presence key set. *)
Definition registered (ws : WebSocket) (user_id : string) (w : World) : World :=
  let w1 := set_active (<[user_id := default [] (active_connections w !! user_id) ++ [ws]]>
                          (active_connections w))
                       (set_accepted ({[ws]} ∪ accepted w) w) in
  match redis w1 with
  | Some keys => set_redis (Some ({[redis_manager.online_key user_id]} ∪ keys)) w1
  | None => w1
  end.

Section Online.
Context (env : Env).

Lemma broadcast_user_status_unsubscribed u st w :
  (∀ c, u ∉ subscribers_of w c) →
  broadcast_user_status env u st w =
  match uuid_parse env u with
  | Some _ => Ok tt w
  | None => Raise ValueError w
  end.
Proof.
  intros Hu. rewrite broadcast_user_status_eq.
  destruct (uuid_parse env u) as [uid|]; [|done].
  apply for_each_skip. intros [c users] Hc%elem_of_map_to_list.
  rewrite decide_False; [done|]. specialize (Hu c). unfold subscribers_of in Hu.
  by rewrite Hc in Hu.
Qed.

Lemma connect_eq ws u w :
  connect env ws u w =
  if decide (ws ∈ accepted w) then Raise RuntimeError w
  else broadcast_user_status env u "online" (registered ws u w).
Proof.
  unfold connect, bind, accept. destruct (decide (ws ∈ accepted w)); [done|].
  unfold registered. simpl. by destruct (redis w).
Qed.

Lemma connect_unsubscribed ws u w :
  (∀ c, u ∉ subscribers_of w c) →
  connect env ws u w ≠ OutOfFuel ∧
  trace (run (connect env ws u) w) = trace w ∧
  chat_subscriptions (run (connect env ws u) w) = chat_subscriptions w.
Proof.
  intros Hu. unfold run. rewrite connect_eq.
  destruct (decide (ws ∈ accepted w)); [done|].
  rewrite broadcast_user_status_unsubscribed.
  - unfold registered. destruct (uuid_parse env u); simpl; by destruct (redis w).
  - intros c. specialize (Hu c). unfold subscribers_of, registered in *. simpl.
    by destruct (redis w).
Qed.
End Online.

Lemma subscribe_all u rows w :
  ∃ w2, for_each rows (λ c, subscribe_to_chat u c) w = Ok tt w2 ∧
        trace w2 = trace w ∧ clock w2 = clock w ∧
        active_connections w2 = active_connections w.
Proof.
  revert w. induction rows as [|c rows IH]; intros w; simpl; [by eexists|].
  unfold bind. destruct (subscribe_to_chat u c w) as [[] w1|e w1|] eqn:E1;
    unfold subscribe_to_chat, modify in E1; [|done|done].
  injection E1 as <-. destruct (IH (set_subscriptions
    (<[c:=default ∅ (chat_subscriptions w !! c) ∪ {[u]}]> (chat_subscriptions w)) w))
    as (w2 & -> & ? & ? & ?).
  by exists w2.
Qed.

(** The observations that are deliveries. *)
Definition is_delivery (e : Obs) : Prop :=
  match e with Delivered _ _ _ => True | _ => False end.

(** C10.  [connect] broadcasts the online status before the handshake has
    subscribed the user to anything.  So for a user who is in no
    subscription set: [connect] writes nothing at all, and the whole
    handshake (the [try] block up to the read loop, whatever chats the store
    returns) delivers at most the connect acknowledgement, on the new
    connection itself; no user-online event reaches anyone. *)
Theorem connect_before_subscriptions (env : Env) (ws : WebSocket) (user : User) (w : World) :
  (∀ C, id user ∉ subscribers_of w C) →
  connect env ws (id user) w ≠ OutOfFuel ∧
  writes_of (connect env ws (id user) w) w = [] ∧
  session env ws user [] w ≠ OutOfFuel ∧
  (∀ e, e ∈ writes_of (session env ws user [] w) w → is_delivery e →
        ∃ m, e = Delivered Reply ws m ∧ event m = CONNECT).
Proof.
  intros Hu. destruct (connect_unsubscribed env ws (id user) w Hu) as (Hfuel & Htrace & _).
  split_and!; [done|by apply writes_of_same| |].
  - unfold session, bind at 1. unfold run in Htrace.
    destruct (connect env ws (id user) w) as [[] w1|e w1|]; [|done|done].
    unfold bind at 1, get_user_chat_ids.
    destruct (select_chat_ids env (id user)) as [rows|]; [|done]. simpl.
    unfold bind at 1.
    destruct (subscribe_all (id user) rows w1) as (w2 & -> & _).
    unfold bind, send_json, send_text. by destruct (write_outcome env (clock w2) ws).
  - unfold session, bind at 1. unfold run in Htrace.
    destruct (connect env ws (id user) w) as [[] w1|e w1|] eqn:Ec; simpl in Htrace.
    + unfold bind at 1, get_user_chat_ids.
      destruct (select_chat_ids env (id user)) as [rows|].
      * simpl. unfold bind at 1.
        destruct (subscribe_all (id user) rows w1) as (w2 & -> & Ht & Hc & _).
        unfold bind, send_json, send_text.
        destruct (write_outcome env (clock w2) ws); simpl.
        -- intros e' He Hd. rewrite (writes_of_app _ _ [WriteFailed Reply ws
             (mkWSMessage CONNECT (JObj [("user_id", JStr (id user));
                ("username", JStr (username user));
                ("chat_count", JNum (Z.of_nat (length rows)))]))]) in He
             by (simpl; by rewrite Ht, Htrace).
           apply list_elem_of_singleton in He as ->. done.
        -- intros e He Hd. rewrite (writes_of_app _ _ [Delivered Reply ws
             (mkWSMessage CONNECT (JObj [("user_id", JStr (id user));
                ("username", JStr (username user));
                ("chat_count", JNum (Z.of_nat (length rows)))]))]) in He
             by (simpl; by rewrite Ht, Htrace).
           apply list_elem_of_singleton in He as ->. eauto.
      * simpl. intros e He. rewrite writes_of_same in He by done. by apply elem_of_nil in He.
    + intros e' He. rewrite writes_of_same in He by done. by apply elem_of_nil in He.
    + intros e' He. rewrite writes_of_same in He by done. by apply elem_of_nil in He.
Qed.

(** ** Subscribe, then unsubscribe *)

Lemma unsubscribed_after_round_trip u c w :
  u ∉ subscribers_of (run (subscribe_to_chat u c ;; unsubscribe_from_chat u c) w) c.
Proof.
  unfold run, bind, subscribe_to_chat, unsubscribe_from_chat, modify, subscribers_of. simpl.
  rewrite !lookup_insert_eq. simpl. rewrite lookup_insert_eq. simpl.
  intros [_ Hu]%elem_of_difference. apply Hu. by apply elem_of_singleton.
Qed.

Lemma round_trip_wf u c w :
  registry_wf w → registry_wf (run (subscribe_to_chat u c ;; unsubscribe_from_chat u c) w).
Proof.
  intros Hwf. unfold run.
  pose proof (keeps_bind _ _ (keeps_subscribe u c) (λ _, keeps_unsubscribe u c) w Hwf) as H.
  by destruct ((subscribe_to_chat u c ;; unsubscribe_from_chat u c) w).
Qed.

(** The socket an observation is about. *)
Definition target (e : Obs) : WebSocket :=
  match e with
  | Delivered _ ws _ | WriteFailed _ ws _ | Closed ws _ => ws
  end.

(** The dispatch an observation belongs to, if it is a write. *)
Definition origin (e : Obs) : option Origin :=
  match e with
  | Delivered o _ _ | WriteFailed o _ _ => Some o
  | Closed _ _ => None
  end.

(** A fan-out on a chat never writes to a socket of a user who is not
    subscribed to it, whatever writes fail on the way. *)
Lemma broadcast_to_chat_not_subscribed env w c event data x u :
  registry_wf w → u ∉ subscribers_of w c →
  ∀ e, e ∈ writes_of (broadcast_to_chat env c event data x w) w →
       origin e = Some (ToChat c) → target e ∉ connections_of w u.
Proof.
  intros Hwf Hu e He Ho Ht.
  pose proof (broadcast_to_chat_safe env c event data x w I) as Hs.
  assert (cascade w (world_of (broadcast_to_chat env c event data x w) w)) as Hc.
  { destruct (broadcast_to_chat env c event data x w); simpl; [done|by destruct Hs|done]. }
  pose proof (writes_of_cascade _ _ Hc) as Hok.
  rewrite Forall_forall in Hok. specialize (Hok e He).
  destruct e as [o ws m|o ws m|ws code]; simpl in *; [| |done];
    injection Ho as ->; destruct Hok as (v & Hv & Hws);
    by rewrite (wf_owner _ Hwf v u ws Hws Ht) in Hv.
Qed.

(** C9.  After [subscribe_to_chat(U, C)] and [unsubscribe_from_chat(U, C)],
    [U] is not in the subscription set of [C]; a following
    [broadcast_to_chat(C, ...)] terminates and its fan-out attempts no
    write on a socket of [U], whatever writes fail; and when no write fails
    the call delivers nothing at all to a socket of [U]. *)
Theorem subscribe_unsubscribe_round_trip (env : Env) (w : World) (U C : string)
    (event : WSEventType) (data : json) (exclude_user : option string) :
  registry_wf w →
  let w' := run (subscribe_to_chat U C ;; unsubscribe_from_chat U C) w in
  let r := broadcast_to_chat env C event data exclude_user w' in
  (U ∉ subscribers_of w' C) ∧
  r ≠ OutOfFuel ∧
  (∀ e, e ∈ writes_of r w' → origin e = Some (ToChat C) → target e ∉ connections_of w' U) ∧
  (no_write_failures env →
   ∀ ws, ws ∈ connections_of w' U → deliveries_to ws (writes_of r w') = []).
Proof.
  intros Hwf w' r.
  pose proof (unsubscribed_after_round_trip U C w) as Hu.
  pose proof (round_trip_wf U C w Hwf) as Hwf'. fold w' in Hu, Hwf'.
  split_and!; [done| | |].
  - pose proof (broadcast_to_chat_safe env C event data exclude_user w' I) as Hs.
    subst r. by destruct (broadcast_to_chat env C event data exclude_user w').
  - by apply broadcast_to_chat_not_subscribed.
  - intros Hnf ws Hws. subst r. rewrite (broadcast_to_chat_deliver env Hnf).
    rewrite (writes_of_app _ _ (chat_fanout w' C (mkWSMessage event data) exclude_user))
      by done.
    rewrite (deliveries_to_chat_fanout w' Hwf' ws U) by done.
    by rewrite decide_False.
Qed.

(** ** Pruning the sockets whose write failed *)

(** What is left of a list after [list.remove] of each element of [F]. *)
Definition remove_list (F l : list WebSocket) : list WebSocket :=
  foldl (λ acc ws, remove_first ws acc) l F.

Lemma pruned_eq ws l : pruned ws l = remove_first ws l.
Proof. unfold pruned. case_decide; [done|]. by rewrite remove_first_notin. Qed.

Lemma remove_list_cons_notin F ws l :
  ws ∉ F → remove_list F (ws :: l) = ws :: remove_list F l.
Proof.
  revert l. induction F as [|x F IH]; intros l Hws; [done|].
  apply not_elem_of_cons in Hws as [Hne HF]. unfold remove_list in *. simpl.
  rewrite decide_False by done. by apply IH.
Qed.

Lemma sublist_remove_first ws F l :
  NoDup l → (ws :: F) `sublist_of` l → F `sublist_of` remove_first ws l.
Proof.
  induction 1 as [|y l Hy Hl IH]; [by intros ?%sublist_nil_r|].
  intros Hsub. simpl. destruct (decide (ws = y)) as [->|Hne].
  - apply sublist_cons_r in Hsub as [Hsub|(F' & E & Hsub)].
    + destruct Hy. eapply elem_of_sublist; [|exact Hsub]. left.
    + by injection E as <-.
  - apply sublist_cons_r in Hsub as [Hsub|(F' & E & Hsub)]; [|congruence].
    apply sublist_cons. by apply IH.
Qed.

Section Pruning.
Context (env : Env).

Lemma failures_notin n ws l : ws ∉ l → ws ∉ failures env n l.
Proof. intros Hws Hin. apply Hws. eapply elem_of_sublist; [done|apply failures_sublist]. Qed.

Lemma remove_failures n l :
  NoDup l → remove_list (failures env n l) l = survivors env n l.
Proof.
  intros Hl. revert n. induction Hl as [|ws l Hws Hl IH]; intros n; [done|]. simpl.
  destruct (write_outcome env n ws).
  - unfold remove_list. simpl. rewrite decide_True by done. apply IH.
  - rewrite remove_list_cons_notin by (by apply failures_notin). by rewrite IH.
Qed.

Lemma survivors_sublist n l : survivors env n l `sublist_of` l.
Proof.
  revert n. induction l as [|ws l IH]; intros n; simpl; [done|].
  destruct (write_outcome env n ws); [by apply sublist_cons|by apply sublist_skip].
Qed.

Lemma failures_survivors n ws l :
  NoDup l → ws ∈ failures env n l → ws ∉ survivors env n l.
Proof.
  intros Hl. revert n. induction Hl as [|y l Hy Hl IH]; intros n; simpl;
    [by intros ?%elem_of_nil|].
  destruct (write_outcome env n y).
  - intros [->|Hin]%elem_of_cons; [|by apply IH].
    intros Hin. apply Hy. eapply elem_of_sublist; [done|apply survivors_sublist].
  - intros Hin [->|Hin']%elem_of_cons; [|by eapply IH].
    by apply (failures_notin (S n)) in Hy.
Qed.

Lemma failures_nil_survivors n l : failures env n l = [] → survivors env n l = l.
Proof.
  revert n. induction l as [|ws l IH]; intros n; simpl; [done|].
  destruct (write_outcome env n ws); [done|]. intros E. by rewrite IH.
Qed.

(** The loop [for ws in disconnected: await self.disconnect(ws, user_id)]. *)
Lemma prune_failed U F :
  ∀ l w, NoDup l → F `sublist_of` l → active_connections w !! U = Some l → l ≠ [] →
  for_each F (λ ws, disconnect env ws U) w =
  match F, remove_list F l with
  | [], _ => Ok tt w
  | _, [] => broadcast_user_status env U "offline" (mark_offline U w)
  | _, rest => Ok tt (set_active (<[U := rest]> (active_connections w)) w)
  end.
Proof.
  induction F as [|ws F IH]; intros l w Hl Hsub Hw Hne; [done|].
  simpl. unfold bind. rewrite disconnect_eq, Hw, pruned_eq.
  pose proof (sublist_remove_first ws F l Hl Hsub) as Hsub'.
  assert (NoDup (remove_first ws l)) as Hl'
    by (eapply sublist_NoDup; [done|apply remove_first_sublist]).
  change (remove_list (ws :: F) l) with (remove_list F (remove_first ws l)).
  destruct (remove_first ws l) as [|c l'] eqn:El.
  - apply sublist_nil_r in Hsub' as ->. simpl.
    by destruct (broadcast_user_status env U "offline" (mark_offline U w)) as [[] ?| |].
  - rewrite (IH (c :: l')); [|done|done|simpl; by rewrite lookup_insert_eq|done].
    destruct F as [|ws' F]; [done|].
    assert (mark_offline U (set_active (<[U:=c :: l']> (active_connections w)) w)
            = mark_offline U w) as ->.
    { unfold mark_offline. simpl. by rewrite delete_insert_eq. }
    destruct (remove_list (ws' :: F) (c :: l')); [done|].
    unfold set_active. simpl. by rewrite insert_insert_eq.
Qed.

(** [send_personal_message], by the sockets that the writes leave. *)
Lemma send_personal_message_eq U conns event data w :
  NoDup conns → conns ≠ [] → active_connections w !! U = Some conns →
  send_personal_message env U event data w =
  let w1 := after_writes env (ToUser U) (mkWSMessage event data) conns w in
  match failures env (clock w) conns, survivors env (clock w) conns with
  | [], _ => Ok tt w1
  | _, [] => broadcast_user_status env U "offline" (mark_offline U w1)
  | _, rest => Ok tt (set_active (<[U := rest]> (active_connections w)) w1)
  end.
Proof.
  intros Hnd Hne Hw. unfold send_personal_message. rewrite send_to_eq, Hw.
  rewrite (prune_failed U _ conns); [|done|apply failures_sublist|done|done].
  pose proof (remove_failures (clock w) conns Hnd) as Hrem. cbv zeta.
  destruct (failures env (clock w) conns); [done|]. by rewrite Hrem.
Qed.
(** Without an entry for the user, [send_personal_message] does nothing. *)
Lemma send_personal_message_unregistered U event data w :
  active_connections w !! U = None → send_personal_message env U event data w = Ok tt w.
Proof. intros Hw. unfold send_personal_message. by rewrite send_to_eq, Hw. Qed.
End Pruning.

Lemma entry_ok_registered w e : entry_ok w e → ∃ v, target e ∈ connections_of w v.
Proof.
  destruct e as [o ws m|o ws m|ws code]; simpl; [| |done];
    (destruct o as [c|u|]; simpl; [intros (v & _ & ?)|intros ?|done]; eauto).
Qed.

Lemma trace_mark_offline u w : trace (mark_offline u w) = trace w.
Proof. destruct w as [ac cs r a c t]. unfold mark_offline. simpl. by destruct r. Qed.

Lemma lookup_mark_offline u w : active_connections (mark_offline u w) !! u = None.
Proof.
  destruct w as [ac cs r a c t]. unfold mark_offline. simpl.
  destruct r; simpl; apply lookup_delete_eq.
Qed.

Lemma is_user_online_mark_offline u w :
  redis_manager.is_user_online u (mark_offline u w) = false.
Proof.
  destruct w as [ac cs r a c t].
  unfold mark_offline, redis_manager.is_user_online, redis_manager.exists_. simpl.
  destruct r; simpl; [|done]. apply bool_decide_eq_false.
  intros [_ Hk]%elem_of_difference. apply Hk. by apply elem_of_singleton.
Qed.

Lemma is_user_online_cascade u w w' :
  cascade w w' → redis_manager.is_user_online u w = false →
  redis_manager.is_user_online u w' = false.
Proof.
  intros Hc. pose proof (cas_redis _ _ Hc) as Hr.
  unfold redis_manager.is_user_online, redis_manager.exists_.
  destruct (redis w) as [keys|].
  - destruct Hr as (keys' & -> & Hsub). rewrite !bool_decide_eq_false. auto.
  - by rewrite Hr.
Qed.

(** Every registered user id is the text of a UUID. *)
Definition ids_valid (env : Env) (w : World) : Prop :=
  ∀ v, is_Some (active_connections w !! v) → is_Some (uuid_parse env v).

(** C7.  [send_personal_message(U, E)] on a registry that holds sockets for
    [U], all user ids being well formed: the call returns; its first writes
    are one attempt of [E] on each socket of [U], in order, and nothing
    later in the call is written to those sockets; every socket whose write
    failed is gone from the entry of [U] and every other one is still
    there; and if all of them failed, the call ends as
    [broadcast_user_status(U, "offline")] run after the entry of [U] and
    its presence key were deleted, neither of which comes back. *)
Theorem send_personal_message_prunes (env : Env) (w : World) (U : string)
    (conns : list WebSocket) (event : WSEventType) (data : json) :
  registry_wf w → active_connections w !! U = Some conns → ids_valid env w →
  let m := mkWSMessage event data in
  let w1 := after_writes env (ToUser U) m conns w in
  let r := send_personal_message env U event data w in
  ∃ w' rest,
    r = Ok tt w' ∧
    trace w' = trace w ++ attempts env (ToUser U) m (clock w) conns ++ rest ∧
    (∀ e, e ∈ rest → target e ∉ conns) ∧
    (∀ ws, ws ∈ failures env (clock w) conns → ws ∉ connections_of w' U) ∧
    (∀ ws, ws ∈ survivors env (clock w) conns → ws ∈ connections_of w' U) ∧
    (survivors env (clock w) conns = [] →
       r = broadcast_user_status env U "offline" (mark_offline U w1) ∧
       active_connections w' !! U = None ∧
       redis_manager.is_user_online U w' = false).
Proof.
  intros Hwf HU Hvalid m w1 r.
  pose proof (wf_NoDup _ Hwf _ _ HU) as Hnd. pose proof (wf_nonempty _ Hwf _ _ HU) as Hne.
  subst r. rewrite (send_personal_message_eq env U conns) by done. cbv zeta. fold m w1.
  destruct (failures env (clock w) conns) as [|f F] eqn:EF.
  - (* no write failed *)
    exists w1, []. rewrite app_nil_r. split_and!; [done|done| | | |].
    + by intros e ?%elem_of_nil.
    + by intros ws ?%elem_of_nil.
    + intros ws. rewrite (failures_nil_survivors env _ _ EF).
      unfold connections_of. simpl. by rewrite HU.
    + rewrite (failures_nil_survivors env _ _ EF). done.
  - destruct (survivors env (clock w) conns) as [|s S] eqn:ES.
    + (* every write failed *)
      pose proof (broadcast_user_status_safe env U "offline" (mark_offline U w1) I) as Hs.
      assert (active_connections w1 !! U = Some conns) as HU1 by done.
      pose proof (mark_offline_cascade U conns w1 HU1) as Hm.
      destruct (broadcast_user_status env U "offline" (mark_offline U w1))
        as [[] w'|e w'|] eqn:Er; [| |done].
      * destruct (cas_trace _ _ Hs) as (rest & Htr & Hrest).
        exists w', rest. split_and!; [done| | | | |].
        -- rewrite Htr, trace_mark_offline. simpl. by rewrite app_assoc.
        -- intros e He Hin. rewrite Forall_forall in Hrest.
           destruct (entry_ok_registered _ _ (Hrest e He)) as (v & Hv).
           rewrite connections_of_mark_offline in Hv.
           case_decide as Hvu; [by apply elem_of_nil in Hv|].
           apply Hvu. apply (wf_owner _ Hwf v U (target e)); [done|].
           unfold connections_of. by rewrite HU.
        -- intros ws _ Hin. apply (connections_of_cascade _ _ _ _ Hs) in Hin.
           rewrite connections_of_mark_offline, decide_True in Hin by done.
           by apply elem_of_nil in Hin.
        -- by intros ws ?%elem_of_nil.
        -- intros _. split_and!; [done| |].
           ++ destruct (active_connections w' !! U) as [l'|] eqn:E'; [|done].
              destruct (cas_registry _ _ Hs _ _ E') as (l & El & _).
              by rewrite lookup_mark_offline in El.
           ++ eapply is_user_online_cascade; [done|apply is_user_online_mark_offline].
      * destruct Hs as (_ & _ & [Hbad|(v & Hv & Hbad)]).
        -- destruct (Hvalid U) as [? Hu]; [by eexists|congruence].
        -- destruct (Hvalid v) as [? Hu]; [|congruence].
           destruct Hv as [l Hv].
           destruct (cas_registry _ _ Hm _ _ Hv) as (l0 & El0 & _). by eexists.
    + (* some socket is left *)
      exists (set_active (<[U := s :: S]> (active_connections w)) w1), [].
      rewrite app_nil_r.
      assert (connections_of (set_active (<[U := s :: S]> (active_connections w)) w1) U
              = s :: S) as Hc.
      { unfold connections_of. simpl. by rewrite lookup_insert_eq. }
      split_and!; [done|done| | | |done].
      * by intros e ?%elem_of_nil.
      * intros ws Hin. rewrite Hc, <-ES. apply failures_survivors; [done|by rewrite EF].
      * intros ws Hin. by rewrite Hc.
Qed.

(** ** The disconnect path of the endpoint *)

Lemma disconnect_removes env ws u w :
  registry_wf w → ws ∉ connections_of (run (disconnect env ws u) w) u.
Proof.
  intros Hwf. unfold run. rewrite disconnect_eq.
  destruct (active_connections w !! u) as [conns|] eqn:E.
  - rewrite pruned_eq.
    pose proof (remove_first_NoDup ws conns (wf_NoDup _ Hwf _ _ E)) as Hws.
    destruct (remove_first ws conns) as [|c l] eqn:El.
    + pose proof (broadcast_user_status_safe env u "offline" (mark_offline u w) I) as Hs.
      assert (cascade (mark_offline u w)
                (world_of (broadcast_user_status env u "offline" (mark_offline u w)) w)) as Hc.
      { destruct (broadcast_user_status env u "offline" (mark_offline u w));
          simpl; [done|by destruct Hs|done]. }
      intros Hin. apply (connections_of_cascade _ _ _ _ Hc) in Hin.
      rewrite connections_of_mark_offline, decide_True in Hin by done.
      by apply elem_of_nil in Hin.
    + unfold connections_of. simpl. by rewrite lookup_insert_eq.
  - unfold connections_of. simpl. rewrite E. by intros ?%elem_of_nil.
Qed.

(** C1, as the code has it.  When the read loop is left through an
    exception, the handler takes the socket out of the entry of the user in
    the registry and leaves every subscription set as it was: nothing on
    this path removes the user from the chats. *)
Theorem disconnect_path_keeps_subscriptions (env : Env) (ws : WebSocket) (user : User)
    (e : Exn) (w : World) :
  registry_wf w →
  let r := on_exception env ws (Some user) e w in
  r ≠ OutOfFuel ∧
  chat_subscriptions (world_of r w) = chat_subscriptions w ∧
  ws ∉ connections_of (world_of r w) (id user).
Proof.
  intros Hwf r. subst r. unfold on_exception, bind.
  pose proof (disconnect_safe env ws (id user) w I) as Hs.
  pose proof (disconnect_removes env ws (id user) w Hwf) as Hr. unfold run in Hr.
  destruct (disconnect env ws (id user) w) as [[] w1|e1 w1|]; simpl in *; [| |done].
  - pose proof (cas_subscriptions _ _ Hs).
    destruct e; simpl; by split_and!.
  - destruct Hs as (Hs & _). pose proof (cas_subscriptions _ _ Hs). by split_and!.
Qed.

(** ** The handshake *)

(** The token is missing, is not a valid access token with a subject, or
    names no user of the store. *)
Definition token_rejected (env : Env) (token : option string) : Prop :=
  match token with
  | None => True
  | Some t =>
      t = "" ∨ verify_token env t "access" = None ∨
      ∃ sub, verify_token env t "access" = Some sub ∧
             (truthy sub = false ∨ select_user env sub = Some [])
  end.

(** C6.  A handshake whose token is missing or invalid is answered by
    closing the transport with status 4001, and changes nothing else: the
    registry, the subscriptions and the presence keys are as before. *)
Theorem unauthenticated_handshake (env : Env) (ws : WebSocket) (token : option string)
    (inbox : list Recv) (w : World) :
  token_rejected env token →
  let w' := observe (Closed ws 4001) w in
  websocket_endpoint env ws token inbox w = Ok Refused w' ∧
  active_connections w' = active_connections w ∧
  chat_subscriptions w' = chat_subscriptions w ∧
  redis w' = redis w ∧
  accepted w' = accepted w.
Proof.
  intros Hrej w'. split_and!; try done.
  unfold websocket_endpoint. destruct token as [t|]; [|done].
  destruct t as [|a t]; [done|]. simpl in Hrej.
  unfold get_user_from_token.
  destruct Hrej as [?|[Hv|(sub & Hv & [Hsub|Hsel])]]; [done| | |]; rewrite Hv; try done.
  - by rewrite Hsub.
  - destruct (truthy sub); [|done]. by rewrite Hsel.
Qed.

(** ** The inbound event router *)

(** The event kinds that [handle_websocket_event] knows. *)
Definition recognized (event_type : json) : bool :=
  event_is event_type (value PING) || event_is event_type (value TYPING_START) ||
  event_is event_type (value TYPING_STOP) || event_is event_type (value MESSAGE_READ) ||
  event_is event_type "subscribe" || event_is event_type "unsubscribe".

(** The envelope that [send_error] writes. *)
Definition error_envelope (code message : string) : WSMessage :=
  mkWSMessage ERROR (JObj [("code", JStr code); ("message", JStr message); ("details", JNull)]).

(** A frame that [json.loads] rejects, or an object whose event kind is not
    a known one. *)
Definition malformed (frame : Recv) : Prop :=
  frame = RecvText None ∨
  ∃ kv, frame = RecvText (Some (JObj kv)) ∧
        recognized (default JNull (dict_get "event" kv)) = false.

(** C5, as the code has it.  A frame that does not decode, or an object
    with an unknown event kind, is answered with an error envelope on the
    same connection; when that write succeeds the loop goes on with the
    next frame, the world otherwise unchanged. *)
Theorem malformed_frame_reply (env : Env) (ws : WebSocket) (user : User)
    (frame : Recv) (rest : list Recv) (w : World) :
  malformed frame → write_outcome env (clock w) ws = None →
  ∃ code message,
    let w' := observe (Delivered Reply ws (error_envelope code message)) (tick w) in
    handle_frame env ws user frame w = Ok tt w' ∧
    read_loop env ws user (frame :: rest) w = read_loop env ws user rest w'.
Proof.
  intros Hm Hw.
  assert (∃ code message, handle_frame env ws user frame w =
            Ok tt (observe (Delivered Reply ws (error_envelope code message)) (tick w)))
    as (code & message & E).
  { destruct Hm as [->|(kv & -> & Hk)].
    - exists "INVALID_JSON", "Invalid JSON format".
      unfold handle_frame, send_error, send_json, send_text. by rewrite Hw.
    - exists "UNKNOWN_EVENT",
             ("Unknown event type: " ++ py_str env (default JNull (dict_get "event" kv)))%string.
      unfold recognized in Hk. rewrite !orb_false_iff in Hk.
      destruct Hk as (((((H1 & H2) & H3) & H4) & H5) & H6).
      unfold handle_frame, py_get, py_get_default, bind, ret, handle_websocket_event.
      rewrite H1, H2, H3, H4, H5, H6.
      unfold send_error, send_json, send_text. by rewrite Hw. }
  exists code, message. split; [done|].
  unfold read_loop. simpl. unfold bind. by rewrite E.
Qed.

(** C8.  A subscribe frame for the chat [C]: the store is asked for the
    active membership of the user in [C]; with exactly one row the user is
    added to the subscription set of [C]; with none the frame is dropped,
    the world untouched and nothing written; and the subscriptions change
    in no other case. *)
Theorem subscribe_requires_membership (env : Env) (ws : WebSocket) (user : User)
    (C : string) (kv : list (string * json)) (w : World) :
  dict_get "chat_id" kv = Some (JStr C) → C ≠ "" →
  let U := id user in
  let r := handle_websocket_event env ws user (JStr "subscribe") (JObj kv) w in
  (select_member env C U = Some [] → r = Ok tt w) ∧
  (∀ row, select_member env C U = Some [row] →
          r = Ok tt (run (subscribe_to_chat U C) w) ∧
          subscribers_of (run (subscribe_to_chat U C) w) C = subscribers_of w C ∪ {[U]}) ∧
  (chat_subscriptions (world_of r w) ≠ chat_subscriptions w →
   ∃ row, select_member env C U = Some [row]).
Proof.
  intros Hget HC U r.
  assert (r = (member <- scalar_one_or_none (select_member env C U) ;;
               match member with
               | Some _ => subscribe_to_chat U C
               | None => ret tt
               end) w) as Hr.
  { subst r. unfold handle_websocket_event. simpl. unfold bind at 1, py_get. simpl.
    rewrite Hget. simpl. apply String.eqb_neq in HC. by rewrite HC. }
  rewrite Hr. unfold bind, scalar_one_or_none.
  destruct (select_member env C U) as [[|row [|row' rows]]|]; simpl; split_and!; try done.
  - intros row0 _. split; [done|].
    unfold subscribers_of. simpl. by rewrite lookup_insert_eq.
  - eauto.
Qed.

(** * Concrete runs *)

Definition alice_id : string := "00000000-0000-4000-8000-00000000000a".
Definition bob_id : string := "00000000-0000-4000-8000-00000000000b".
Definition chat1 : string := "10000000-0000-4000-8000-000000000001".
Definition chat2 : string := "10000000-0000-4000-8000-000000000002".
Definition alice : User := mkUser alice_id "alice".
Definition bob : User := mkUser bob_id "bob".

(** A store with two users who are both members of two chats; tokens
    ["tokA"] and ["tokB"]; [broken] are the sockets on which every write
    fails. *)
Definition example_env (broken : list WebSocket) : Env :=
  mkEnv
    (λ _ ws, if bool_decide (ws ∈ broken) then Some OSError else None)
    (λ s, if bool_decide (String.length s = 36) then Some s else None)
    (λ j, match j with JStr s => s | _ => "None" end)
    (λ t, if String.eqb t "tokA" then Some [("type", JStr "access"); ("sub", JStr alice_id)]
          else if String.eqb t "tokB" then Some [("type", JStr "access"); ("sub", JStr bob_id)]
          else None)
    (λ sub, Some (match sub with
                  | JStr s => if String.eqb s alice_id then [alice]
                              else if String.eqb s bob_id then [bob] else []
                  | _ => []
                  end))
    (λ u, Some [chat1; chat2])
    (λ c u, Some (if String.eqb c chat1 || String.eqb c chat2 then [tt] else [])).

(** Alice on two devices, Bob on one, both subscribed to both chats. *)
Definition example_calls : list Call :=
  [CallConnect 1 alice_id; CallConnect 2 alice_id; CallConnect 3 bob_id;
   CallSubscribe alice_id chat1; CallSubscribe bob_id chat1;
   CallSubscribe alice_id chat2; CallSubscribe bob_id chat2].

Definition example_world : World :=
  mkWorld {[alice_id := [1; 2]; bob_id := [3]]}
          {[chat1 := {[alice_id; bob_id]}; chat2 := {[alice_id; bob_id]}]}
          (Some {[redis_manager.online_key alice_id; redis_manager.online_key bob_id]})
          {[1; 2; 3]} 0 [].

Lemma example_world_reached broken :
  run_calls (example_env broken) example_calls (fresh (Some ∅)) = Some example_world.
Proof. vm_compute. reflexivity. Qed.

Lemma example_world_wf : registry_wf example_world.
Proof.
  destruct (run_calls_wf (example_env []) example_calls _ (fresh_wf (Some ∅)))
    as (w & Hw & Hwf).
  rewrite example_world_reached in Hw. by injection Hw as <-.
Qed.

Lemma example_no_write_failures : no_write_failures (example_env []).
Proof. by intros n ws. Qed.

Lemma example_ids_valid broken : ids_valid (example_env broken) example_world.
Proof.
  intros v [l Hl]. unfold example_world in Hl. simpl in Hl.
  apply lookup_insert_Some in Hl as [[<- _]|[_ Hl]]; [by eexists|].
  apply lookup_singleton_Some in Hl as [<- _]. by eexists.
Qed.

(** *** Instances of the theorems above *)

Lemma broadcast_to_chat_delivery_example :
  no_write_failures (example_env []) ∧ registry_wf example_world ∧ alice_id ≠ "" ∧
  ∃ new,
    broadcast_to_chat (example_env []) chat1 MESSAGE_NEW JNull (Some alice_id) example_world
      = Ok tt (deliver new example_world) ∧
    (∀ ws, ws ∈ connections_of example_world alice_id → deliveries_to ws new = []) ∧
    (∀ V ws, V ∈ subscribers_of example_world chat1 → V ≠ alice_id →
             ws ∈ connections_of example_world V →
             deliveries_to ws new = [mkWSMessage MESSAGE_NEW JNull]).
Proof.
  split; [exact example_no_write_failures|].
  split; [exact example_world_wf|].
  split; [discriminate|].
  exact (broadcast_to_chat_delivery (example_env []) example_world chat1 MESSAGE_NEW JNull
           alice_id example_no_write_failures example_world_wf
           (λ H : alice_id = "", eq_ind alice_id
              (λ s, match s with EmptyString => False | String _ _ => True end) I "" H)).
Defined.

(** The scenario of the specification: only the connection of Bob receives
    the event, the two of Alice receive nothing. *)
Example broadcast_scenario :
  writes_of (broadcast_to_chat (example_env []) chat1 MESSAGE_NEW JNull (Some alice_id)
               example_world) example_world
  = [Delivered (ToChat chat1) 3 (mkWSMessage MESSAGE_NEW JNull)].
Proof. vm_compute. reflexivity. Qed.

Lemma last_disconnect_presence_example :
  no_write_failures (example_env []) ∧ registry_wf example_world ∧
  active_connections example_world !! bob_id = Some [3] ∧
  uuid_parse (example_env []) bob_id = Some bob_id ∧
  let offline := mkWSMessage USER_OFFLINE (user_status_data bob_id "offline") in
  ∃ new,
    disconnect (example_env []) 3 bob_id example_world
      = Ok tt (deliver new (mark_offline bob_id example_world)) ∧
    (∀ C V x, bob_id ∈ subscribers_of example_world C → V ∈ subscribers_of example_world C →
              V ≠ bob_id → x ∈ connections_of example_world V →
              Delivered (ToChat C) x offline ∈ new) ∧
    deliveries_to 3 new = [] ∧
    (∀ V x, V ≠ bob_id → x ∈ connections_of example_world V →
            deliveries_to x new = replicate (shared_chats example_world bob_id V) offline).
Proof.
  split; [exact example_no_write_failures|].
  split; [exact example_world_wf|].
  split; [reflexivity|].
  split; [reflexivity|].
  exact (last_disconnect_presence (example_env []) example_world 3 bob_id bob_id
           example_no_write_failures example_world_wf eq_refl eq_refl).
Defined.

(** Alice shares two chats with Bob: when the only connection of Bob goes,
    each of her two connections receives the offline event twice, once for
    each chat. *)
Example offline_scenario :
  let w := run (disconnect (example_env []) 3 bob_id) example_world in
  let offline := mkWSMessage USER_OFFLINE (user_status_data bob_id "offline") in
  shared_chats example_world bob_id alice_id = 2 ∧
  deliveries_to 1 (trace w) = [offline; offline] ∧
  deliveries_to 2 (trace w) = [offline; offline] ∧
  deliveries_to 3 (trace w) = [] ∧
  is_user_online bob_id w = false ∧
  redis_manager.is_user_online bob_id w = false.
Proof. vm_compute. by split_and!. Qed.

Lemma send_personal_message_prunes_example :
  registry_wf example_world ∧
  active_connections example_world !! bob_id = Some [3] ∧
  ids_valid (example_env [3]) example_world ∧
  let m := mkWSMessage NOTIFICATION JNull in
  let w1 := after_writes (example_env [3]) (ToUser bob_id) m [3] example_world in
  let r := send_personal_message (example_env [3]) bob_id NOTIFICATION JNull example_world in
  ∃ w' rest,
    r = Ok tt w' ∧
    trace w' = trace example_world ++
               attempts (example_env [3]) (ToUser bob_id) m (clock example_world) [3] ++ rest ∧
    (∀ e, e ∈ rest → target e ∉ [3]) ∧
    (∀ ws, ws ∈ failures (example_env [3]) (clock example_world) [3] →
           ws ∉ connections_of w' bob_id) ∧
    (∀ ws, ws ∈ survivors (example_env [3]) (clock example_world) [3] →
           ws ∈ connections_of w' bob_id) ∧
    (survivors (example_env [3]) (clock example_world) [3] = [] →
       r = broadcast_user_status (example_env [3]) bob_id "offline" (mark_offline bob_id w1) ∧
       active_connections w' !! bob_id = None ∧
       redis_manager.is_user_online bob_id w' = false).
Proof.
  split; [exact example_world_wf|].
  split; [reflexivity|].
  split; [exact (example_ids_valid [3])|].
  exact (send_personal_message_prunes (example_env [3]) example_world bob_id [3]
           NOTIFICATION JNull example_world_wf eq_refl (example_ids_valid [3])).
Defined.

(** The only connection of Bob is broken: the personal message fails on it,
    Bob leaves the registry, and Alice is told on both her connections, in
    both chats. *)
Example failed_write_scenario :
  let w := run (send_personal_message (example_env [3]) bob_id NOTIFICATION JNull)
               example_world in
  let offline := mkWSMessage USER_OFFLINE (user_status_data bob_id "offline") in
  trace w = [WriteFailed (ToUser bob_id) 3 (mkWSMessage NOTIFICATION JNull);
             Delivered (ToChat chat1) 1 offline; Delivered (ToChat chat1) 2 offline;
             Delivered (ToChat chat2) 1 offline; Delivered (ToChat chat2) 2 offline] ∧
  is_user_online bob_id w = false.
Proof. vm_compute. by split. Qed.

Lemma subscribe_unsubscribe_round_trip_example :
  registry_wf example_world ∧
  let w' := run (subscribe_to_chat alice_id chat1 ;; unsubscribe_from_chat alice_id chat1)
                example_world in
  let r := broadcast_to_chat (example_env []) chat1 MESSAGE_NEW JNull None w' in
  (alice_id ∉ subscribers_of w' chat1) ∧
  r ≠ OutOfFuel ∧
  (∀ e, e ∈ writes_of r w' → origin e = Some (ToChat chat1) →
        target e ∉ connections_of w' alice_id) ∧
  (no_write_failures (example_env []) →
   ∀ ws, ws ∈ connections_of w' alice_id → deliveries_to ws (writes_of r w') = []).
Proof.
  split; [exact example_world_wf|].
  exact (subscribe_unsubscribe_round_trip (example_env []) example_world alice_id chat1
           MESSAGE_NEW JNull None example_world_wf).
Defined.

Lemma initial_unsubscribed u C : u ∉ subscribers_of initial C.
Proof. unfold subscribers_of. simpl. rewrite lookup_empty. apply not_elem_of_empty. Qed.

Lemma connect_before_subscriptions_example :
  (∀ C, id alice ∉ subscribers_of initial C) ∧
  connect (example_env []) 1 (id alice) initial ≠ OutOfFuel ∧
  writes_of (connect (example_env []) 1 (id alice) initial) initial = [] ∧
  session (example_env []) 1 alice [] initial ≠ OutOfFuel ∧
  (∀ e, e ∈ writes_of (session (example_env []) 1 alice [] initial) initial → is_delivery e →
        ∃ m, e = Delivered Reply 1 m ∧ event m = CONNECT).
Proof.
  split; [exact (initial_unsubscribed (id alice))|].
  exact (connect_before_subscriptions (example_env []) 1 alice initial
           (initial_unsubscribed (id alice))).
Defined.

(** Bob is connected and subscribed when Alice connects for the first
    time: her handshake subscribes her to the chats they share only after
    [connect] has broadcast, so Bob is told nothing; he is told when she
    connects a second device. *)
Example online_scenario :
  let w0 := run (websocket_endpoint (example_env []) 3 (Some "tokB") []) initial in
  let w1 := run (websocket_endpoint (example_env []) 1 (Some "tokA") []) w0 in
  let w2 := run (websocket_endpoint (example_env []) 2 (Some "tokA") []) w1 in
  let online := mkWSMessage USER_ONLINE (user_status_data alice_id "online") in
  deliveries_to 3 (writes_of (Ok tt w1) w0) = [] ∧
  deliveries_to 3 (writes_of (Ok tt w2) w1) = [online; online].
Proof. vm_compute. by split. Qed.

Lemma disconnect_path_keeps_subscriptions_example :
  registry_wf example_world ∧
  let r := on_exception (example_env []) 3 (Some bob) WebSocketDisconnect example_world in
  r ≠ OutOfFuel ∧
  chat_subscriptions (world_of r example_world) = chat_subscriptions example_world ∧
  3 ∉ connections_of (world_of r example_world) (id bob).
Proof.
  split; [exact example_world_wf|].
  exact (disconnect_path_keeps_subscriptions (example_env []) 3 bob WebSocketDisconnect
           example_world example_world_wf).
Defined.

(** Alice connects in a fresh process and her transport closes: the loop is
    left, she is gone from the registry, and she is still in the
    subscription set of the chat. *)
Lemma subscription_outlives_disconnect :
  ∃ w, websocket_endpoint (example_env []) 1 (Some "tokA") [RecvDisconnect] initial
         = Ok Terminated w ∧
       is_user_online alice_id w = false ∧
       ¬ (∀ C, alice_id ∉ subscribers_of w C).
Proof.
  eexists. split; [vm_compute; reflexivity|]. split; [by vm_compute|].
  intros H. apply (H chat1). by vm_compute.
Qed.

Lemma malformed_frame_reply_example :
  malformed (RecvText None) ∧
  write_outcome (example_env []) (clock example_world) 3 = None ∧
  ∃ code message,
    let w' := observe (Delivered Reply 3 (error_envelope code message)) (tick example_world) in
    handle_frame (example_env []) 3 bob (RecvText None) example_world = Ok tt w' ∧
    read_loop (example_env []) 3 bob [RecvText None; RecvDisconnect] example_world
      = read_loop (example_env []) 3 bob [RecvDisconnect] w'.
Proof.
  split; [by left|].
  split; [reflexivity|].
  exact (malformed_frame_reply (example_env []) 3 bob (RecvText None) [RecvDisconnect]
           example_world (or_introl eq_refl) eq_refl).
Defined.

(** A text frame that is valid JSON but not an object, on a transport on
    which no write fails: [message.get] raises, the endpoint leaves the
    loop, deregisters the connection and closes it with status 4000. *)
Lemma non_object_frame_terminates :
  ∃ w, websocket_endpoint (example_env []) 1 (Some "tokA") [RecvText (Some (JArr []))] initial
         = Ok Terminated w ∧
       handle_frame (example_env []) 1 alice (RecvText (Some (JArr []))) initial
         = Raise AttributeError initial ∧
       Closed 1 4000 ∈ trace w ∧
       is_user_online alice_id w = false.
Proof.
  eexists. split; [vm_compute; reflexivity|]. split; [reflexivity|].
  split; [|by vm_compute]. vm_compute. right. left.
Qed.

Lemma unauthenticated_handshake_example :
  token_rejected (example_env []) (Some "forged") ∧
  let w' := observe (Closed 4 4001) example_world in
  websocket_endpoint (example_env []) 4 (Some "forged") [RecvDisconnect] example_world
    = Ok Refused w' ∧
  active_connections w' = active_connections example_world ∧
  chat_subscriptions w' = chat_subscriptions example_world ∧
  redis w' = redis example_world ∧
  accepted w' = accepted example_world.
Proof.
  split; [right; left; reflexivity|].
  exact (unauthenticated_handshake (example_env []) 4 (Some "forged") [RecvDisconnect]
           example_world (or_intror (or_introl eq_refl))).
Defined.

Lemma subscribe_requires_membership_example :
  dict_get "chat_id" [("chat_id", JStr chat1)] = Some (JStr chat1) ∧ chat1 ≠ "" ∧
  let U := id alice in
  let r := handle_websocket_event (example_env []) 1 alice (JStr "subscribe")
             (JObj [("chat_id", JStr chat1)]) initial in
  (select_member (example_env []) chat1 U = Some [] → r = Ok tt initial) ∧
  (∀ row, select_member (example_env []) chat1 U = Some [row] →
          r = Ok tt (run (subscribe_to_chat U chat1) initial) ∧
          subscribers_of (run (subscribe_to_chat U chat1) initial) chat1
            = subscribers_of initial chat1 ∪ {[U]}) ∧
  (chat_subscriptions (world_of r initial) ≠ chat_subscriptions initial →
   ∃ row, select_member (example_env []) chat1 U = Some [row]).
Proof.
  split; [reflexivity|].
  split; [discriminate|].
  exact (subscribe_requires_membership (example_env []) 1 alice chat1
           [("chat_id", JStr chat1)] initial eq_refl
           (λ H : chat1 = "", eq_ind chat1
              (λ s, match s with EmptyString => False | String _ _ => True end) I "" H)).
Defined.

(** A subscribe frame for a chat the user is no member of is dropped: no
    subscription, and nothing written back. *)
Example forbidden_subscribe_scenario :
  handle_frame (example_env []) 3 bob
    (RecvText (Some (JObj [("event", JStr "subscribe");
                           ("data", JObj [("chat_id", JStr alice_id)])])))
    example_world
  = Ok tt example_world.
Proof. vm_compute. reflexivity. Qed.

(** * Further properties of the manager *)

Lemma world_eta w :
  mkWorld (active_connections w) (chat_subscriptions w) (redis w) (accepted w)
          (clock w) (trace w) = w.
Proof. by destruct w. Qed.

(** X1.  [disconnect] of a socket that is not registered for the user
    returns and changes nothing, whether the user has other sockets or is
    not in the registry at all. *)
Theorem disconnect_unregistered (env : Env) (ws : WebSocket) (u : string) (w : World) :
  registry_wf w → ws ∉ connections_of w u → disconnect env ws u w = Ok tt w.
Proof.
  intros Hwf Hws. rewrite disconnect_eq. unfold connections_of in Hws.
  destruct (active_connections w !! u) as [conns|] eqn:E; [|done]. simpl in Hws.
  unfold pruned. rewrite decide_False by done.
  pose proof (wf_nonempty _ Hwf _ _ E) as Hne.
  destruct conns as [|c conns]; [done|].
  unfold set_active. rewrite insert_id by done. by rewrite world_eta.
Qed.

Lemma disconnect_unregistered_example :
  registry_wf example_world ∧ (7 ∉ connections_of example_world alice_id) ∧
  disconnect (example_env [1; 2; 3]) 7 alice_id example_world = Ok tt example_world.
Proof.
  assert (7 ∉ connections_of example_world alice_id) as H.
  { change (connections_of example_world alice_id) with [1; 2].
    intros [?|[?|?%elem_of_nil]%elem_of_cons]%elem_of_cons; done. }
  split; [exact example_world_wf|]. split; [exact H|].
  exact (disconnect_unregistered (example_env [1; 2; 3]) 7 alice_id example_world
           example_world_wf H).
Defined.

Lemma remove_first_app_last ws l : ws ∉ l → remove_first ws (l ++ [ws]) = l.
Proof.
  induction l as [|y l IH]; simpl; [by rewrite decide_True|].
  intros [? ?]%not_elem_of_cons. rewrite decide_False by done. by rewrite IH.
Qed.

Lemma active_connections_registered ws u w :
  active_connections (registered ws u w)
  = <[u := default [] (active_connections w !! u) ++ [ws]]> (active_connections w).
Proof. unfold registered. simpl. by destruct (redis w). Qed.

Lemma chat_subscriptions_registered ws u w :
  chat_subscriptions (registered ws u w) = chat_subscriptions w.
Proof. unfold registered. simpl. by destruct (redis w). Qed.

(** X2.  When no write fails, [connect] followed by [disconnect] of the
    same socket returns and gives back the registry and the subscriptions
    it started from. *)
Theorem connect_disconnect_round_trip (env : Env) (ws : WebSocket) (u uid : string)
    (w : World) :
  no_write_failures env → registry_wf w → ws ∉ accepted w → uuid_parse env u = Some uid →
  ∃ w', (connect env ws u ;; disconnect env ws u) w = Ok tt w' ∧
        active_connections w' = active_connections w ∧
        chat_subscriptions w' = chat_subscriptions w.
Proof.
  intros Hnf Hwf Hfresh Hu. unfold bind. rewrite connect_eq, decide_False by done.
  rewrite (broadcast_user_status_deliver env Hnf u uid) by done.
  set (w1 := deliver (status_fanout (registered ws u w) u uid "online") (registered ws u w)).
  assert (active_connections w1
          = <[u := default [] (active_connections w !! u) ++ [ws]]> (active_connections w))
    as Hac by apply active_connections_registered.
  assert (chat_subscriptions w1 = chat_subscriptions w) as Hcs
    by apply chat_subscriptions_registered.
  assert (ws ∉ default [] (active_connections w !! u)) as Hnew.
  { intros Hin. by apply Hfresh, (wf_accepted _ Hwf u). }
  rewrite disconnect_eq, Hac, lookup_insert_eq, pruned_eq, remove_first_app_last by done.
  destruct (active_connections w !! u) as [l|] eqn:E; simpl.
  - pose proof (wf_nonempty _ Hwf _ _ E). destruct l as [|c l]; [done|].
    eexists. split; [done|]. simpl.
    split; [by rewrite insert_insert_eq, insert_id|exact Hcs].
  - rewrite (broadcast_user_status_deliver env Hnf u uid) by done.
    eexists. split; [done|]. simpl.
    assert (active_connections (mark_offline u w1) = delete u (active_connections w1)
            ∧ chat_subscriptions (mark_offline u w1) = chat_subscriptions w1) as [-> ->].
    { generalize w1. intros [ac cs r a c t]. unfold mark_offline. simpl. by destruct r. }
    split; [by rewrite Hac, delete_insert_eq, delete_id|exact Hcs].
Qed.

Lemma connect_disconnect_round_trip_example :
  no_write_failures (example_env []) ∧ registry_wf example_world ∧
  (9 ∉ accepted example_world) ∧ uuid_parse (example_env []) bob_id = Some bob_id ∧
  ∃ w', (connect (example_env []) 9 bob_id ;; disconnect (example_env []) 9 bob_id)
          example_world = Ok tt w' ∧
        active_connections w' = active_connections example_world ∧
        chat_subscriptions w' = chat_subscriptions example_world.
Proof.
  assert (9 ∉ accepted example_world) as H by (by vm_compute).
  split; [exact example_no_write_failures|]. split; [exact example_world_wf|].
  split; [exact H|]. split; [reflexivity|].
  exact (connect_disconnect_round_trip (example_env []) 9 bob_id bob_id example_world
           example_no_write_failures example_world_wf H eq_refl).
Defined.

(** X3.  Whatever writes fail, a dispatch ([broadcast_to_chat],
    [send_personal_message], [disconnect]) terminates and only prunes: it
    leaves the subscriptions and the accepted transports as they were,
    registry entries only lose sockets and are deleted rather than left
    empty, Redis only loses keys, and every observation it adds is a write
    on a socket that was registered when it started. *)
Theorem dispatch_only_prunes (env : Env) (w : World) :
  (∀ c event data x,
     let r := broadcast_to_chat env c event data x w in
     r ≠ OutOfFuel ∧ cascade w (world_of r w)) ∧
  (∀ u event data,
     let r := send_personal_message env u event data w in
     r ≠ OutOfFuel ∧ cascade w (world_of r w)) ∧
  (∀ ws u,
     let r := disconnect env ws u w in
     r ≠ OutOfFuel ∧ cascade w (world_of r w)).
Proof.
  split_and!.
  - intros c event data x r. subst r.
    pose proof (broadcast_to_chat_safe env c event data x w I) as Hs.
    destruct (broadcast_to_chat env c event data x w); simpl; [done|by destruct Hs|done].
  - intros u event data r. subst r.
    pose proof (send_to_safe env (ToUser u) (mkWSMessage event data) u w (λ ws H, H)) as Hs.
    unfold send_personal_message.
    destruct (send_to env (ToUser u) (mkWSMessage event data) u w); simpl;
      [done|by destruct Hs|done].
  - intros ws u r. subst r. pose proof (disconnect_safe env ws u w I) as Hs.
    destruct (disconnect env ws u w); simpl; [done|by destruct Hs|done].
Qed.

(** ** Subscriptions *)

(** [subs_grow m]: [m] removes no key of [chat_subscriptions]. *)
Definition subs_grow {A} (m : M A) : Prop :=
  ∀ w, match m w with
       | Ok _ w' | Raise _ w' => dom (chat_subscriptions w) ⊆ dom (chat_subscriptions w')
       | OutOfFuel => True
       end.

Lemma subs_grow_ret {A} (a : A) : subs_grow (ret a).
Proof. intros w. simpl. reflexivity. Qed.

Lemma subs_grow_raise {A} e : subs_grow (raise (A:=A) e).
Proof. intros w. simpl. reflexivity. Qed.

Lemma subs_grow_bind {A B} (m : M A) (k : A → M B) :
  subs_grow m → (∀ a, subs_grow (k a)) → subs_grow (bind m k).
Proof.
  intros Hm Hk w. unfold bind. specialize (Hm w).
  destruct (m w) as [a w1|e w1|]; [|done|done].
  specialize (Hk a w1). destruct (k a w1); [by etrans|by etrans|done].
Qed.

Lemma subs_grow_safe {A} env (P : World → Prop) (m : M A) :
  (∀ w, P w) → safe env P m → subs_grow m.
Proof.
  intros HP Hm w. specialize (Hm w (HP w)).
  destruct (m w); [|destruct Hm as [Hm _]|done]; by rewrite (cas_subscriptions _ _ Hm).
Qed.

Lemma subs_grow_modify (f : World → World) :
  (∀ w, dom (chat_subscriptions w) ⊆ dom (chat_subscriptions (f w))) → subs_grow (modify f).
Proof. intros Hf w. apply Hf. Qed.

Lemma subs_grow_redis_set key : subs_grow (redis_manager.set key).
Proof. apply subs_grow_modify. intros w. by destruct (redis w). Qed.

Lemma subs_grow_redis_delete key : subs_grow (redis_manager.delete key).
Proof. apply subs_grow_modify. intros w. by destruct (redis w). Qed.

Lemma subs_grow_subscribe u c : subs_grow (subscribe_to_chat u c).
Proof.
  apply subs_grow_modify. intros w. simpl. rewrite dom_insert. apply union_subseteq_r.
Qed.

Lemma subs_grow_unsubscribe u c : subs_grow (unsubscribe_from_chat u c).
Proof.
  apply subs_grow_modify. intros w.
  destruct (chat_subscriptions w !! c) eqn:E; [|done]. simpl.
  rewrite dom_insert. apply union_subseteq_r.
Qed.

Lemma subs_grow_UUID env x : subs_grow (UUID env x).
Proof.
  destruct x; try apply subs_grow_raise. simpl.
  destruct (uuid_parse env s); [apply subs_grow_ret|apply subs_grow_raise].
Qed.

Lemma subs_grow_broadcast_to_chat env c event data x :
  subs_grow (broadcast_to_chat env c event data x).
Proof. apply (subs_grow_safe env (λ _, True)); [done|apply broadcast_to_chat_safe]. Qed.

Lemma subs_grow_connect env ws u : subs_grow (connect env ws u).
Proof.
  intros w. rewrite connect_eq. destruct (decide (ws ∈ accepted w)); [done|].
  pose proof (broadcast_user_status_safe env u "online" (registered ws u w) I) as Hs.
  destruct (broadcast_user_status env u "online" (registered ws u w));
    [|destruct Hs as [Hs _]|done];
    by rewrite (cas_subscriptions _ _ Hs), chat_subscriptions_registered.
Qed.

Lemma subs_grow_perform env c : subs_grow (perform env c).
Proof.
  destruct c; simpl.
  - apply subs_grow_connect.
  - apply (subs_grow_safe env (λ _, True)); [done|apply disconnect_safe].
  - apply subs_grow_subscribe.
  - apply subs_grow_unsubscribe.
  - eapply subs_grow_safe; [|apply send_to_safe]. by intros w ws Hws.
  - apply subs_grow_broadcast_to_chat.
  - unfold send_typing_status.
    apply subs_grow_bind; [apply subs_grow_UUID|intros ?].
    apply subs_grow_bind; [apply subs_grow_UUID|intros ?].
    apply subs_grow_bind; [apply subs_grow_broadcast_to_chat|intros _].
    unfold redis_manager.set_user_typing.
    destruct is_typing; [apply subs_grow_redis_set|apply subs_grow_redis_delete].
  - apply subs_grow_broadcast_to_chat.
  - unfold send_message_update.
    apply subs_grow_bind; [apply subs_grow_UUID|intros ?].
    apply subs_grow_bind; [apply subs_grow_UUID|intros ?].
    apply subs_grow_broadcast_to_chat.
  - unfold send_message_delete.
    apply subs_grow_bind; [apply subs_grow_UUID|intros ?].
    apply subs_grow_bind; [apply subs_grow_UUID|intros ?].
    apply subs_grow_broadcast_to_chat.
  - unfold send_read_receipt.
    apply subs_grow_bind; [apply subs_grow_UUID|intros ?].
    apply subs_grow_bind; [apply subs_grow_UUID|intros ?].
    apply subs_grow_bind; [apply subs_grow_UUID|intros ?].
    apply subs_grow_broadcast_to_chat.
Qed.

(** X4.  No call on the manager ever removes a chat from
    [chat_subscriptions]: a chat that has an entry keeps one, be it the
    empty set, whatever is called afterwards. *)
Theorem subscription_entries_stay (env : Env) (calls : list Call) (w w' : World) :
  run_calls env calls w = Some w' →
  dom (chat_subscriptions w) ⊆ dom (chat_subscriptions w').
Proof.
  revert w. induction calls as [|c calls IH]; intros w; simpl.
  - by intros [= ->].
  - pose proof (subs_grow_perform env c w) as Hc.
    destruct (perform env c w) as [[] w1|e w1|]; [| |done]; intros Hrun;
      (etrans; [exact Hc|by apply IH]).
Qed.

(** Everybody unsubscribes from the first chat and leaves. *)
Definition leaving_calls : list Call :=
  [CallUnsubscribe alice_id chat1; CallUnsubscribe bob_id chat1;
   CallDisconnect 1 alice_id; CallDisconnect 2 alice_id; CallDisconnect 3 bob_id].

Lemma subscription_entries_stay_example :
  ∃ w', run_calls (example_env []) leaving_calls example_world = Some w' ∧
        dom (chat_subscriptions example_world) ⊆ dom (chat_subscriptions w') ∧
        chat_subscriptions w' !! chat1 = Some ∅ ∧
        active_connections w' = ∅.
Proof.
  eexists. split; [vm_compute; reflexivity|].
  split; [|split; by vm_compute].
  refine (subscription_entries_stay (example_env []) leaving_calls example_world _ _).
  vm_compute. reflexivity.
Defined.

(** X5.  [subscribe_to_chat] and [unsubscribe_from_chat] are idempotent:
    the second of two equal calls changes nothing. *)
Theorem subscribe_idempotent (u c : string) (w : World) :
  run (subscribe_to_chat u c ;; subscribe_to_chat u c) w = run (subscribe_to_chat u c) w ∧
  run (unsubscribe_from_chat u c ;; unsubscribe_from_chat u c) w
    = run (unsubscribe_from_chat u c) w.
Proof.
  split.
  - unfold run, bind, subscribe_to_chat, modify, set_subscriptions. simpl.
    rewrite lookup_insert_eq, insert_insert_eq. simpl.
    do 2 f_equal. apply set_eq. intros x. rewrite !elem_of_union. tauto.
  - unfold run, bind, unsubscribe_from_chat, modify. simpl.
    destruct (chat_subscriptions w !! c) as [users|] eqn:E; simpl; [|by rewrite E].
    rewrite lookup_insert_eq. unfold set_subscriptions. simpl. rewrite insert_insert_eq.
    do 2 f_equal. apply set_eq. intros x. rewrite !elem_of_difference. tauto.
Qed.

(** ** The notifications built on [broadcast_to_chat] *)

Lemma UUID_eq env s w :
  UUID env (JStr s) w =
  match uuid_parse env s with
  | Some u => Ok u w
  | None => Raise ValueError w
  end.
Proof. simpl. by destruct (uuid_parse env s). Qed.

Lemma deliveries_to_chat_fanout_none w ws c m x :
  (∀ v, v ∈ subscribers_of w c → ws ∉ connections_of w v) →
  deliveries_to ws (chat_fanout w c m x) = [].
Proof.
  intros Hws. unfold chat_fanout.
  assert (∀ v, v ∈ elements (subscribers_of w c) → ws ∉ connections_of w v) as Hl.
  { intros v Hv. apply Hws. by apply elem_of_elements. }
  induction (elements (subscribers_of w c)) as [|u users IH]; [done|].
  rewrite bind_cons, deliveries_to_app, IH, app_nil_r by (intros v Hv; apply Hl; by right).
  destruct (excluded x u); [done|]. apply deliveries_to_fanout_notin, Hl. left.
Qed.

(** A call wrote [m] exactly once on every socket of every subscriber of
    the chat, and nothing on any other socket. *)
Definition reaches_everyone (w : World) (chat_id : string) (r : Result unit)
    (m : WSMessage) : Prop :=
  ∃ new, r = Ok tt (deliver new w) ∧
    (∀ V ws, V ∈ subscribers_of w chat_id → ws ∈ connections_of w V →
             deliveries_to ws new = [m]) ∧
    (∀ ws, (∀ V, V ∈ subscribers_of w chat_id → ws ∉ connections_of w V) →
           deliveries_to ws new = []).

Lemma broadcast_reaches_everyone env w c event data :
  no_write_failures env → registry_wf w →
  reaches_everyone w c (broadcast_to_chat env c event data None w) (mkWSMessage event data).
Proof.
  intros Hnf Hwf. eexists. split; [by apply broadcast_to_chat_deliver|]. split.
  - intros V ws HV Hws. rewrite (deliveries_to_chat_fanout w Hwf ws V) by done.
    by rewrite decide_True.
  - intros ws Hws. by apply deliveries_to_chat_fanout_none.
Qed.

(** X6.  When no write fails and the ids are well formed,
    [send_message_update] and [send_message_delete] exclude nobody: the
    event is written exactly once on every socket of every subscriber of
    the chat, the sockets of the user who edited or deleted included. *)
Theorem edits_reach_everyone (env : Env) (w : World)
    (chat_id message_id content c m : string) (flag : bool) :
  no_write_failures env → registry_wf w →
  uuid_parse env chat_id = Some c → uuid_parse env message_id = Some m →
  reaches_everyone w chat_id (send_message_update env chat_id message_id content flag w)
    (mkWSMessage MESSAGE_UPDATE
       (JObj [("id", JStr m); ("chat_id", JStr c); ("content", JStr content);
              ("is_edited", JBool flag); ("edited_at", JNull)])) ∧
  reaches_everyone w chat_id (send_message_delete env chat_id message_id flag w)
    (mkWSMessage MESSAGE_DELETE
       (JObj [("id", JStr m); ("chat_id", JStr c); ("deleted_for_everyone", JBool flag)])).
Proof.
  intros Hnf Hwf Hc Hm. split.
  - unfold send_message_update, bind. rewrite UUID_eq, Hm. cbv beta iota.
    rewrite UUID_eq, Hc. cbv beta iota. by apply broadcast_reaches_everyone.
  - unfold send_message_delete, bind. rewrite UUID_eq, Hm. cbv beta iota.
    rewrite UUID_eq, Hc. cbv beta iota. by apply broadcast_reaches_everyone.
Qed.

Lemma edits_reach_everyone_example :
  no_write_failures (example_env []) ∧ registry_wf example_world ∧
  uuid_parse (example_env []) chat1 = Some chat1 ∧
  uuid_parse (example_env []) chat2 = Some chat2 ∧
  reaches_everyone example_world chat1
    (send_message_update (example_env []) chat1 chat2 "hello" true example_world)
    (mkWSMessage MESSAGE_UPDATE
       (JObj [("id", JStr chat2); ("chat_id", JStr chat1); ("content", JStr "hello");
              ("is_edited", JBool true); ("edited_at", JNull)])) ∧
  reaches_everyone example_world chat1
    (send_message_delete (example_env []) chat1 chat2 true example_world)
    (mkWSMessage MESSAGE_DELETE
       (JObj [("id", JStr chat2); ("chat_id", JStr chat1);
              ("deleted_for_everyone", JBool true)])).
Proof.
  split; [exact example_no_write_failures|]. split; [exact example_world_wf|].
  split; [reflexivity|]. split; [reflexivity|].
  exact (edits_reach_everyone (example_env []) example_world chat1 chat2 "hello"
           chat1 chat2 true example_no_write_failures example_world_wf eq_refl eq_refl).
Defined.

(** The message of a typing notification. *)
Definition typing_message (c u username : string) (is_typing : bool) : WSMessage :=
  mkWSMessage (if is_typing then TYPING_START else TYPING_STOP)
    (JObj [("chat_id", JStr c); ("user_id", JStr u); ("username", JStr username)]).

(** X7.  A typing notification whose chat id or user id is not the text of
    a UUID raises [ValueError] before anything happens: nothing is written
    and no typing marker is set.  For the router this is a typing frame
    with such a [chat_id]: handling it raises in the world it started in. *)
Theorem typing_rejects_malformed_ids (env : Env) (ws : WebSocket) (user : User)
    (chat_id username : string) (is_typing : bool) (kv : list (string * json)) (w : World) :
  uuid_parse env chat_id = None ∨ uuid_parse env (id user) = None →
  send_typing_status env chat_id (id user) username is_typing w = Raise ValueError w ∧
  (dict_get "chat_id" kv = Some (JStr chat_id) → chat_id ≠ "" →
   handle_websocket_event env ws user
     (JStr (value (if is_typing then TYPING_START else TYPING_STOP))) (JObj kv) w
   = Raise ValueError w).
Proof.
  intros Hbad.
  assert (∀ name, send_typing_status env chat_id (id user) name is_typing w
                  = Raise ValueError w) as Hsend.
  { intros name. unfold send_typing_status, bind. rewrite UUID_eq.
    destruct (uuid_parse env chat_id) as [c|]; [|done]. cbv beta iota.
    rewrite UUID_eq. destruct Hbad as [?| ->]; done. }
  split; [apply Hsend|].
  intros Hget Hne. apply String.eqb_neq in Hne.
  destruct is_typing; unfold handle_websocket_event; simpl;
    unfold bind, py_get; simpl; rewrite Hget; simpl; rewrite Hne; simpl; apply Hsend.
Qed.

Lemma typing_rejects_malformed_ids_example :
  (uuid_parse (example_env []) "lobby" = None ∨
   uuid_parse (example_env []) (id alice) = None) ∧
  send_typing_status (example_env []) "lobby" (id alice) "alice" true example_world
    = Raise ValueError example_world ∧
  (dict_get "chat_id" [("chat_id", JStr "lobby")] = Some (JStr "lobby") → "lobby" ≠ "" →
   handle_websocket_event (example_env []) 1 alice
     (JStr (value (if true then TYPING_START else TYPING_STOP)))
     (JObj [("chat_id", JStr "lobby")]) example_world
   = Raise ValueError example_world).
Proof.
  split; [left; reflexivity|].
  exact (typing_rejects_malformed_ids (example_env []) 1 alice "lobby" "alice" true
           [("chat_id", JStr "lobby")] example_world (or_introl eq_refl)).
Defined.

Lemma chat_fanout_same w1 w2 c m x :
  active_connections w1 = active_connections w2 →
  chat_subscriptions w1 = chat_subscriptions w2 →
  chat_fanout w1 c m x = chat_fanout w2 c m x.
Proof.
  intros Ha Hs. unfold chat_fanout, subscribers_of, connections_of. by rewrite Ha, Hs.
Qed.

(** What [set_user_typing] leaves: everything but the Redis keys. *)
Lemma set_user_typing_run u c b w :
  let w' := run (redis_manager.set_user_typing u c b) w in
  active_connections w' = active_connections w ∧
  chat_subscriptions w' = chat_subscriptions w ∧
  trace w' = trace w ∧
  (b = false → redis_manager.exists_ (redis_manager.typing_key c u) w' = false).
Proof.
  destruct w as [ac cs r a k t].
  unfold run, redis_manager.set_user_typing, redis_manager.set, redis_manager.delete,
    redis_manager.exists_, modify.
  destruct b, r as [keys|]; simpl; split_and!; try done.
  intros _. apply bool_decide_eq_false.
  intros [_ Hk]%elem_of_difference. apply Hk. by apply elem_of_singleton.
Qed.

Lemma send_typing_status_deliver env c u name b c' u' w :
  no_write_failures env → uuid_parse env c = Some c' → uuid_parse env u = Some u' →
  send_typing_status env c u name b w =
  Ok tt (run (redis_manager.set_user_typing u c b)
           (deliver (chat_fanout w c (typing_message c' u' name b) (Some u)) w)).
Proof.
  intros Hnf Hc Hu. unfold send_typing_status, bind.
  rewrite UUID_eq, Hc. cbv beta iota. rewrite UUID_eq, Hu. cbv beta iota.
  rewrite (broadcast_to_chat_deliver env Hnf).
  unfold run, redis_manager.set_user_typing, redis_manager.set, redis_manager.delete, modify.
  by destruct b.
Qed.

(** X8.  Typing start followed by typing stop.  When no write fails, a
    typing start followed by a typing stop of user [u] in chat [c] returns;
    every socket of every other subscriber of [c] receives exactly the
    start and then the stop notification; the sockets of [u] receive
    nothing; the typing marker is not left behind in Redis; and the
    registry and the subscriptions are untouched. *)
Theorem typing_start_stop (env : Env) (w : World) (c u username c' u' : string) :
  no_write_failures env → registry_wf w →
  uuid_parse env c = Some c' → uuid_parse env u = Some u' → u ≠ "" →
  let r := (send_typing_status env c u username true ;;
            send_typing_status env c u username false) w in
  ∃ w', r = Ok tt w' ∧
    redis_manager.exists_ (redis_manager.typing_key c u) w' = false ∧
    active_connections w' = active_connections w ∧
    chat_subscriptions w' = chat_subscriptions w ∧
    (∀ V x, V ∈ subscribers_of w c → V ≠ u → x ∈ connections_of w V →
            deliveries_to x (writes_of r w)
            = [typing_message c' u' username true; typing_message c' u' username false]) ∧
    (∀ x, x ∈ connections_of w u → deliveries_to x (writes_of r w) = []).
Proof.
  intros Hnf Hwf Hc Hu Hne r. subst r. unfold bind.
  rewrite (send_typing_status_deliver env c u username true c' u') by done.
  set (f1 := chat_fanout w c (typing_message c' u' username true) (Some u)).
  destruct (set_user_typing_run u c true (deliver f1 w)) as (Ha1 & Hs1 & Ht1 & _).
  set (w1 := run (redis_manager.set_user_typing u c true) (deliver f1 w)) in *.
  rewrite (send_typing_status_deliver env c u username false c' u') by done.
  rewrite (chat_fanout_same w1 w) by done.
  set (f2 := chat_fanout w c (typing_message c' u' username false) (Some u)).
  destruct (set_user_typing_run u c false (deliver f2 w1)) as (Ha2 & Hs2 & Ht2 & Hk).
  set (w2 := run (redis_manager.set_user_typing u c false) (deliver f2 w1)) in *.
  assert (writes_of (Ok tt w2) w = f1 ++ f2) as Hw.
  { apply writes_of_app. simpl. rewrite Ht2. simpl. rewrite Ht1. simpl.
    by rewrite app_assoc. }
  exists w2. split_and!; [done|by apply Hk| | | |].
  - by rewrite Ha2.
  - by rewrite Hs2.
  - intros V x HV HVu Hx. rewrite Hw, deliveries_to_app. unfold f1, f2.
    rewrite !(deliveries_to_chat_fanout w Hwf x V) by done.
    rewrite !decide_True by done.
    destruct (excluded (Some u) V) eqn:E; [|done].
    apply excluded_spec in E as [_ ?]. done.
  - intros x Hx. rewrite Hw, deliveries_to_app. unfold f1, f2.
    rewrite !(deliveries_to_chat_fanout w Hwf x u) by done.
    repeat case_decide; try done. by rewrite (proj2 (excluded_spec u u)).
Qed.

Lemma typing_start_stop_example :
  no_write_failures (example_env []) ∧ registry_wf example_world ∧
  uuid_parse (example_env []) chat1 = Some chat1 ∧
  uuid_parse (example_env []) alice_id = Some alice_id ∧ alice_id ≠ "" ∧
  let r := (send_typing_status (example_env []) chat1 alice_id "alice" true ;;
            send_typing_status (example_env []) chat1 alice_id "alice" false)
             example_world in
  ∃ w', r = Ok tt w' ∧
    redis_manager.exists_ (redis_manager.typing_key chat1 alice_id) w' = false ∧
    active_connections w' = active_connections example_world ∧
    chat_subscriptions w' = chat_subscriptions example_world ∧
    (∀ V x, V ∈ subscribers_of example_world chat1 → V ≠ alice_id →
            x ∈ connections_of example_world V →
            deliveries_to x (writes_of r example_world)
            = [typing_message chat1 alice_id "alice" true;
               typing_message chat1 alice_id "alice" false]) ∧
    (∀ x, x ∈ connections_of example_world alice_id →
          deliveries_to x (writes_of r example_world) = []).
Proof.
  split; [exact example_no_write_failures|]. split; [exact example_world_wf|].
  split; [reflexivity|]. split; [reflexivity|]. split; [discriminate|].
  exact (typing_start_stop (example_env []) example_world chat1 alice_id "alice"
           chat1 alice_id example_no_write_failures example_world_wf eq_refl eq_refl
           (λ H : alice_id = "", eq_ind alice_id
              (λ s, match s with EmptyString => False | String _ _ => True end) I "" H)).
Defined.

(** X9.  When no write fails, [connect] of a transport that was not
    accepted before returns with the socket appended to the entry of the
    user and no other entry changed; the user is online for the manager
    and, if Redis is connected, in Redis; and [get_online_users_count]
    grows by one exactly when the user had no socket before: it counts
    users, not sockets. *)
Theorem connect_registers (env : Env) (ws : WebSocket) (u uid : string) (w : World) :
  no_write_failures env → ws ∉ accepted w → uuid_parse env u = Some uid →
  ∃ w', connect env ws u w = Ok tt w' ∧
    connections_of w' u = connections_of w u ++ [ws] ∧
    (∀ v, v ≠ u → connections_of w' v = connections_of w v) ∧
    is_user_online u w' = true ∧
    (is_Some (redis w) → redis_manager.is_user_online u w' = true) ∧
    get_online_users_count w'
    = (if is_user_online u w then get_online_users_count w
       else S (get_online_users_count w)).
Proof.
  intros Hnf Hfresh Hu. rewrite connect_eq, decide_False by done.
  rewrite (broadcast_user_status_deliver env Hnf u uid) by done.
  eexists. split; [done|].
  unfold connections_of, is_user_online, get_online_users_count. simpl.
  rewrite active_connections_registered. split_and!.
  - by rewrite lookup_insert_eq.
  - intros v Hv. by rewrite lookup_insert_ne.
  - apply bool_decide_eq_true. rewrite lookup_insert_eq. by eexists.
  - intros [keys Hr]. unfold registered, redis_manager.is_user_online, redis_manager.exists_.
    simpl. rewrite Hr. simpl. apply bool_decide_eq_true.
    apply elem_of_union_l. by apply elem_of_singleton.
  - rewrite map_size_insert. destruct (active_connections w !! u) as [l|] eqn:E.
    + rewrite bool_decide_eq_true_2 by (by eexists). done.
    + rewrite bool_decide_eq_false_2; [done|]. by intros [? ?].
Qed.

Lemma connect_registers_example :
  no_write_failures (example_env []) ∧ (9 ∉ accepted example_world) ∧
  uuid_parse (example_env []) bob_id = Some bob_id ∧
  ∃ w', connect (example_env []) 9 bob_id example_world = Ok tt w' ∧
    connections_of w' bob_id = connections_of example_world bob_id ++ [9] ∧
    (∀ v, v ≠ bob_id → connections_of w' v = connections_of example_world v) ∧
    is_user_online bob_id w' = true ∧
    (is_Some (redis example_world) → redis_manager.is_user_online bob_id w' = true) ∧
    get_online_users_count w'
    = (if is_user_online bob_id example_world then get_online_users_count example_world
       else S (get_online_users_count example_world)).
Proof.
  assert (9 ∉ accepted example_world) as H by (by vm_compute).
  split; [exact example_no_write_failures|]. split; [exact H|]. split; [reflexivity|].
  exact (connect_registers (example_env []) 9 bob_id bob_id example_world
           example_no_write_failures H eq_refl).
Defined.

(** * Further properties of the router *)

(** The event kinds whose handler reads only [chat_id]. *)
Definition reads_chat_id (event_type : json) : bool :=
  event_is event_type (value TYPING_START) || event_is event_type (value TYPING_STOP) ||
  event_is event_type "subscribe" || event_is event_type "unsubscribe".

Lemma event_is_true event_type v : event_is event_type v = true → event_type = JStr v.
Proof. destruct event_type; try done. simpl. by intros ->%String.eqb_eq. Qed.

(** X10.  A typing, subscribe or unsubscribe frame whose data has no
    [chat_id], or a falsy one (null, the empty string, zero, ...), and a
    read receipt that lacks [chat_id] or [message_id], are ignored: the
    handler returns in the world it started in, nothing is written back and
    the store is not asked. *)
Theorem frames_without_ids_are_ignored (env : Env) (ws : WebSocket) (user : User)
    (event_type : json) (kv : list (string * json)) (w : World) :
  (reads_chat_id event_type = true →
   truthy (default JNull (dict_get "chat_id" kv)) = false →
   handle_websocket_event env ws user event_type (JObj kv) w = Ok tt w) ∧
  (event_is event_type (value MESSAGE_READ) = true →
   truthy (default JNull (dict_get "chat_id" kv)) &&
   truthy (default JNull (dict_get "message_id" kv)) = false →
   handle_websocket_event env ws user event_type (JObj kv) w = Ok tt w).
Proof.
  split.
  - unfold reads_chat_id. rewrite !orb_true_iff.
    intros [[[H|H]|H]|H] Hc; apply event_is_true in H as ->;
      unfold handle_websocket_event; simpl; unfold bind, py_get; simpl; by rewrite Hc.
  - intros H Hc. apply event_is_true in H as ->.
    unfold handle_websocket_event. simpl. unfold bind, py_get. simpl. by rewrite Hc.
Qed.

Lemma frames_without_ids_are_ignored_example :
  handle_websocket_event (example_env []) 1 alice (JStr "typing.start")
    (JObj [("chat", JStr chat1)]) example_world = Ok tt example_world ∧
  handle_websocket_event (example_env []) 1 alice (JStr "message.read")
    (JObj [("chat_id", JStr chat1); ("message_id", JStr "")]) example_world
  = Ok tt example_world.
Proof.
  split.
  - exact (proj1 (frames_without_ids_are_ignored (example_env []) 1 alice
             (JStr "typing.start") [("chat", JStr chat1)] example_world)
             eq_refl eq_refl).
  - exact (proj2 (frames_without_ids_are_ignored (example_env []) 1 alice
             (JStr "message.read") [("chat_id", JStr chat1); ("message_id", JStr "")]
             example_world) eq_refl eq_refl).
Defined.

(** X11.  An unsubscribe frame is honoured without asking the store,
    whatever the store would answer: the user is taken out of the
    subscription set of the chat, and when the chat has no entry the world
    is left as it is (no entry is created). *)
Theorem unsubscribe_is_unconditional (env : Env) (ws : WebSocket) (user : User)
    (c : string) (kv : list (string * json)) (w : World) :
  dict_get "chat_id" kv = Some (JStr c) → c ≠ "" →
  let r := handle_websocket_event env ws user (JStr "unsubscribe") (JObj kv) w in
  r = Ok tt (run (unsubscribe_from_chat (id user) c) w) ∧
  (id user ∉ subscribers_of (world_of r w) c) ∧
  (chat_subscriptions w !! c = None → r = Ok tt w).
Proof.
  intros Hget Hne r.
  assert (r = Ok tt (run (unsubscribe_from_chat (id user) c) w)) as Hr.
  { subst r. unfold handle_websocket_event. simpl. unfold bind at 1, py_get. simpl.
    rewrite Hget. simpl. apply String.eqb_neq in Hne. by rewrite Hne. }
  rewrite Hr. split_and!; [done| |].
  - unfold run, unsubscribe_from_chat, modify, subscribers_of. simpl.
    destruct (chat_subscriptions w !! c) as [users|] eqn:E; simpl.
    + rewrite lookup_insert_eq. simpl.
      intros [_ Hu]%elem_of_difference. apply Hu. by apply elem_of_singleton.
    + rewrite E. simpl. apply not_elem_of_empty.
  - intros E. unfold run, unsubscribe_from_chat, modify. simpl. by rewrite E.
Qed.

Lemma unsubscribe_is_unconditional_example :
  dict_get "chat_id" [("chat_id", JStr chat1)] = Some (JStr chat1) ∧ chat1 ≠ "" ∧
  let r := handle_websocket_event (example_env []) 1 alice (JStr "unsubscribe")
             (JObj [("chat_id", JStr chat1)]) example_world in
  r = Ok tt (run (unsubscribe_from_chat (id alice) chat1) example_world) ∧
  (id alice ∉ subscribers_of (world_of r example_world) chat1) ∧
  (chat_subscriptions example_world !! chat1 = None → r = Ok tt example_world).
Proof.
  split; [reflexivity|]. split; [discriminate|].
  exact (unsubscribe_is_unconditional (example_env []) 1 alice chat1
           [("chat_id", JStr chat1)] example_world eq_refl
           (λ H : chat1 = "", eq_ind chat1
              (λ s, match s with EmptyString => False | String _ _ => True end) I "" H)).
Defined.

(** X12.  A ping is answered with a pong on the same connection, whatever
    its data is, and only then is the presence key of the user written
    again: when the write of the pong fails, its exception leaves the
    handler and Redis is as it was. *)
Theorem ping_refreshes_presence (env : Env) (ws : WebSocket) (user : User)
    (data : json) (w : World) :
  let r := handle_websocket_event env ws user (JStr "ping") data w in
  let pong := mkWSMessage PONG (JObj []) in
  match write_outcome env (clock w) ws with
  | None =>
      r = Ok tt (run (redis_manager.set_user_online (id user))
                   (observe (Delivered Reply ws pong) (tick w))) ∧
      (is_Some (redis w) → redis_manager.is_user_online (id user) (world_of r w) = true)
  | Some e =>
      r = Raise e (observe (WriteFailed Reply ws pong) (tick w)) ∧
      redis (world_of r w) = redis w
  end.
Proof.
  intros r pong. subst r. unfold handle_websocket_event. simpl.
  unfold bind, send_json, send_text.
  destruct (write_outcome env (clock w) ws) as [e|]; [done|].
  split; [done|]. intros [keys Hr].
  unfold redis_manager.is_user_online, redis_manager.exists_,
    redis_manager.set_user_online, redis_manager.set, modify. simpl.
  rewrite Hr. simpl. apply bool_decide_eq_true.
  apply elem_of_union_l. by apply elem_of_singleton.
Qed.

(** * The endpoint as a whole *)

Lemma keeps_send_json env ws m : keeps (send_json env ws m).
Proof.
  intros w [H1 H2 H3 H4]. unfold send_json, send_text.
  destruct (write_outcome env (clock w) ws); by split.
Qed.

Lemma keeps_close ws code : keeps (close ws code).
Proof. by apply keeps_modify. Qed.

Lemma keeps_py_get x k : keeps (py_get x k).
Proof. destruct x; first [apply keeps_ret|apply keeps_raise]. Qed.

Lemma keeps_py_get_default x k d : keeps (py_get_default x k d).
Proof. destruct x; first [apply keeps_ret|apply keeps_raise]. Qed.

Lemma keeps_scalar_one_or_none {A} (r : Rows A) : keeps (scalar_one_or_none r).
Proof. destruct r as [[|x [|y l]]|]; first [apply keeps_ret|apply keeps_raise]. Qed.

Lemma keeps_set_user_online u : keeps (redis_manager.set_user_online u).
Proof. apply keeps_redis_set. Qed.

Ltac keeps_step :=
  first
    [ apply keeps_ret | apply keeps_raise | apply keeps_send_json | apply keeps_close
    | apply keeps_py_get | apply keeps_py_get_default | apply keeps_scalar_one_or_none
    | apply keeps_set_user_online | apply keeps_subscribe | apply keeps_unsubscribe
    | apply keeps_send_typing_status | apply keeps_send_read_receipt
    | apply keeps_connect | apply keeps_disconnect
    | apply keeps_bind; [|intros ?]
    | apply keeps_for_each; intros ?
    | match goal with
      | |- keeps (if ?b then _ else _) => destruct b
      | |- keeps (match ?x with _ => _ end) => destruct x
      end ].

Lemma keeps_handle_websocket_event env ws user event_type data :
  keeps (handle_websocket_event env ws user event_type data).
Proof. unfold handle_websocket_event, send_error. repeat keeps_step. Qed.

Lemma keeps_handle_frame env ws user r : keeps (handle_frame env ws user r).
Proof.
  destruct r as [[message|]|]; simpl; unfold send_error;
    repeat first [apply keeps_handle_websocket_event | keeps_step].
Qed.

Lemma keeps_session env ws user inbox : keeps (session env ws user inbox).
Proof.
  unfold session, read_loop, get_user_chat_ids.
  repeat first [apply keeps_handle_frame | keeps_step].
Qed.

Lemma keeps_on_exception env ws user e : keeps (on_exception env ws user e).
Proof. unfold on_exception. repeat keeps_step. Qed.

Lemma keeps_try_except {A} (m : M A) (h : Exn → M A) :
  keeps m → (∀ e, keeps (h e)) → keeps (try_except m h).
Proof.
  intros Hm Hh w Hwf. unfold try_except. specialize (Hm w Hwf).
  destruct (m w) as [a w1|e w1|]; [done| |done]. by apply Hh.
Qed.

(** [get_user_from_token] reads the token and the store, and nothing else. *)
Lemma get_user_from_token_pure env t w :
  match get_user_from_token env t w with
  | Ok _ w' | Raise _ w' => w' = w
  | OutOfFuel => False
  end.
Proof.
  unfold get_user_from_token. destruct (verify_token env t "access") as [sub|]; [|done].
  destruct (truthy sub); [|done]. by destruct (select_user env sub) as [[|x [|y l]]|].
Qed.

Lemma keeps_websocket_endpoint env ws token inbox :
  keeps (websocket_endpoint env ws token inbox).
Proof.
  destruct token as [[|a t]|]; unfold websocket_endpoint;
    [repeat keeps_step|idtac|repeat keeps_step].
  intros w Hwf. pose proof (get_user_from_token_pure env (String a t) w) as Hp.
  destruct (get_user_from_token env (String a t) w) as [[u|] w1|e w1|]; [| | |done]; subst w1.
  - apply keeps_try_except; [apply keeps_session|apply keeps_on_exception|done].
  - revert Hwf. generalize w. change (keeps (close ws 4001 ;; ret Refused)). repeat keeps_step.
  - by apply keeps_on_exception.
Qed.

Lemma bind_Ok_inv {A B} (m : M A) (k : A → M B) w b w' :
  bind m k w = Ok b w' → ∃ a w1, m w = Ok a w1 ∧ k a w1 = Ok b w'.
Proof. unfold bind. destruct (m w) as [a w1|e w1|]; [|done|done]. by exists a, w1. Qed.

(** The [try] block ends normally only in [receive_text], waiting. *)
Lemma session_returns_open env ws user inbox w o w' :
  session env ws user inbox w = Ok o w' → o = Open.
Proof.
  unfold session. intros H.
  apply bind_Ok_inv in H as (? & ? & _ & H). apply bind_Ok_inv in H as (? & ? & _ & H).
  apply bind_Ok_inv in H as (? & ? & _ & H). apply bind_Ok_inv in H as (? & ? & _ & H).
  apply bind_Ok_inv in H as (? & ? & _ & H). by injection H as <-.
Qed.

Lemma on_exception_removes env ws user e w :
  registry_wf w → ws ∉ connections_of (world_of (on_exception env ws (Some user) e w) w) (id user).
Proof.
  intros Hwf. unfold on_exception, bind.
  pose proof (disconnect_removes env ws (id user) w Hwf) as Hr. unfold run in Hr.
  pose proof (keeps_disconnect env ws (id user) w Hwf) as Hk.
  destruct (disconnect env ws (id user) w) as [[] w1|e1 w1|]; simpl in *; [|done|done].
  by destruct e.
Qed.

(** X13.  The endpoint as a whole, for every token, every finite sequence
    of received frames and every pattern of failing writes, started in a
    well-formed registry: it does not diverge (the recursion through
    [disconnect] and the broadcasts ends), the registry is well formed
    afterwards, and for an authenticated user the socket is no longer in the
    entry of the user unless the loop is still waiting for the next
    frame: no way out of the [try] block leaves the socket registered. *)
Theorem endpoint_keeps_registry (env : Env) (ws : WebSocket) (token : option string)
    (inbox : list Recv) (w : World) :
  registry_wf w →
  let r := websocket_endpoint env ws token inbox w in
  r ≠ OutOfFuel ∧ registry_wf (world_of r w) ∧
  (∀ t user, token = Some t → t ≠ "" →
     get_user_from_token env t w = Ok (Some user) w →
     (∀ w', r ≠ Ok Open w') → ws ∉ connections_of (world_of r w) (id user)).
Proof.
  intros Hwf r. pose proof (keeps_websocket_endpoint env ws token inbox w Hwf) as Hk.
  fold r in Hk. split_and!.
  - intros E. by rewrite E in Hk.
  - by destruct r.
  - intros t user -> Ht Hu Hopen. subst r. clear Hk.
    destruct t as [|a t]; [done|]. simpl in *. rewrite Hu in *.
    unfold try_except in *.
    pose proof (keeps_session env ws user inbox w Hwf) as Hs.
    destruct (session env ws user inbox w) as [o w1|e w1|] eqn:E; [| |done].
    + apply session_returns_open in E as ->. by destruct (Hopen w1).
    + pose proof (on_exception_removes env ws user e w1 Hs) as Hr.
      pose proof (keeps_on_exception env ws (Some user) e w1 Hs) as Hk.
      by destruct (on_exception env ws (Some user) e w1).
Qed.

Lemma endpoint_keeps_registry_example :
  registry_wf example_world ∧
  let r := websocket_endpoint (example_env []) 9 (Some "tokB")
             [RecvText (Some (JObj [("event", JStr "ping")])); RecvDisconnect]
             example_world in
  r ≠ OutOfFuel ∧ registry_wf (world_of r example_world) ∧
  (∀ t user, Some "tokB" = Some t → t ≠ "" →
     get_user_from_token (example_env []) t example_world = Ok (Some user) example_world →
     (∀ w', r ≠ Ok Open w') → 9 ∉ connections_of (world_of r example_world) (id user)).
Proof.
  split; [exact example_world_wf|].
  exact (endpoint_keeps_registry (example_env []) 9 (Some "tokB")
           [RecvText (Some (JObj [("event", JStr "ping")])); RecvDisconnect]
           example_world example_world_wf).
Defined.

Lemma subscribe_all_subscribers u rows w :
  ∃ w2, for_each rows (λ c, subscribe_to_chat u c) w = Ok tt w2 ∧
        trace w2 = trace w ∧ clock w2 = clock w ∧
        active_connections w2 = active_connections w ∧
        (∀ c v, v ∈ subscribers_of w2 c ↔ v ∈ subscribers_of w c ∨ (v = u ∧ c ∈ rows)).
Proof.
  revert w. induction rows as [|c0 rows IH]; intros w.
  - exists w. split_and!; try done. intros c v. split; [by left|].
    by intros [?|[_ ?%elem_of_nil]].
  - simpl. unfold bind.
    destruct (subscribe_to_chat u c0 w) as [[] w1|e w1|] eqn:E1;
      unfold subscribe_to_chat, modify in E1; [|done|done].
    injection E1 as <-.
    destruct (IH (set_subscriptions
      (<[c0:=default ∅ (chat_subscriptions w !! c0) ∪ {[u]}]> (chat_subscriptions w)) w))
      as (w2 & -> & Ht & Hc & Ha & Hs).
    exists w2. split_and!; try done. intros c v. rewrite Hs, elem_of_cons.
    unfold subscribers_of. simpl. destruct (decide (c = c0)) as [->|Hne].
    + rewrite lookup_insert_eq. simpl. rewrite elem_of_union, elem_of_singleton. tauto.
    + rewrite lookup_insert_ne by done. intuition congruence.
Qed.

(** The acknowledgement of a handshake. *)
Definition connected_message (user : User) (chat_count : nat) : WSMessage :=
  mkWSMessage CONNECT
    (JObj [("user_id", JStr (id user)); ("username", JStr (username user));
           ("chat_count", JNum (Z.of_nat chat_count))]).

(** X14.  A handshake with a valid access token of a stored user, on a
    transport that was not accepted before and when no write fails, ends
    waiting for the first frame: the socket is the last one in the entry of
    the user, the user is subscribed to exactly the chats returned by the
    store in addition to the earlier subscriptions, nobody else's
    subscriptions change, and the last thing written is the acknowledgement
    on the new socket, carrying the number of rows returned by the store
    (counted with repetitions). *)
Theorem handshake_seeds (env : Env) (ws : WebSocket) (t : string) (sub : json)
    (user : User) (rows : list string) (uid : string) (w : World) :
  no_write_failures env → ws ∉ accepted w → t ≠ "" →
  verify_token env t "access" = Some sub → truthy sub = true →
  select_user env sub = Some [user] → select_chat_ids env (id user) = Some rows →
  uuid_parse env (id user) = Some uid →
  ∃ w', websocket_endpoint env ws (Some t) [] w = Ok Open w' ∧
    connections_of w' (id user) = connections_of w (id user) ++ [ws] ∧
    (∀ c v, v ∈ subscribers_of w' c ↔
            v ∈ subscribers_of w c ∨ (v = id user ∧ c ∈ rows)) ∧
    last (trace w') = Some (Delivered Reply ws (connected_message user (length rows))).
Proof.
  intros Hnf Hfresh Ht Hv Hsub Huser Hrows Hu.
  destruct t as [|a t]; [done|]. simpl.
  unfold get_user_from_token. rewrite Hv, Hsub, Huser. simpl.
  unfold try_except, session, bind at 1.
  rewrite connect_eq, decide_False by done.
  rewrite (broadcast_user_status_deliver env Hnf (id user) uid) by done.
  set (w1 := deliver _ _).
  unfold bind at 1, get_user_chat_ids. rewrite Hrows. simpl. unfold bind at 1.
  destruct (subscribe_all_subscribers (id user) rows w1) as (w2 & -> & Htr & Hcl & Hac & Hs).
  unfold bind at 1, send_json, send_text. rewrite Hnf. simpl.
  eexists. split; [done|]. split_and!.
  - unfold connections_of. simpl. rewrite Hac. subst w1. simpl.
    by rewrite active_connections_registered, lookup_insert_eq.
  - intros c v. unfold subscribers_of at 1. simpl. fold (subscribers_of w2 c).
    rewrite Hs. subst w1. rewrite subscribers_of_deliver. unfold subscribers_of.
    by rewrite chat_subscriptions_registered.
  - simpl. by rewrite last_snoc.
Qed.

Lemma handshake_seeds_example :
  no_write_failures (example_env []) ∧ (9 ∉ accepted example_world) ∧
  ∃ w', websocket_endpoint (example_env []) 9 (Some "tokB") [] example_world = Ok Open w' ∧
    connections_of w' (id bob) = connections_of example_world (id bob) ++ [9] ∧
    (∀ c v, v ∈ subscribers_of w' c ↔
            v ∈ subscribers_of example_world c ∨ (v = id bob ∧ c ∈ [chat1; chat2])) ∧
    last (trace w') = Some (Delivered Reply 9 (connected_message bob (length [chat1; chat2]))).
Proof.
  assert (9 ∉ accepted example_world) as H by (by vm_compute).
  split; [exact example_no_write_failures|]. split; [exact H|].
  exact (handshake_seeds (example_env []) 9 "tokB" (JStr bob_id) bob [chat1; chat2] bob_id
           example_world example_no_write_failures H
           (λ E : "tokB" = "", eq_ind "tokB"
              (λ s, match s with EmptyString => False | String _ _ => True end) I "" E)
           eq_refl eq_refl eq_refl eq_refl eq_refl).
Defined.

(** X15.  When the query for the user fails during the handshake (the
    driver raises, or more than one row comes back), the transport is
    closed with status 4000, not 4001, before it was ever accepted, and
    nothing else changes: no registration, no subscription, no presence
    key, nothing written, whatever frames would follow. *)
Theorem handshake_store_failure (env : Env) (ws : WebSocket) (t : string) (sub : json)
    (inbox : list Recv) (w : World) :
  t ≠ "" → verify_token env t "access" = Some sub → truthy sub = true →
  (select_user env sub = None ∨ ∃ a b rest, select_user env sub = Some (a :: b :: rest)) →
  websocket_endpoint env ws (Some t) inbox w = Ok Terminated (observe (Closed ws 4000) w).
Proof.
  intros Ht Hv Hsub Hq. destruct t as [|a t]; [done|]. simpl.
  unfold get_user_from_token. rewrite Hv, Hsub.
  by destruct Hq as [->|(x & y & rest & ->)].
Qed.

(** A store in which the query for the user fails. *)
Definition failing_store : Env :=
  mkEnv (write_outcome (example_env [])) (uuid_parse (example_env []))
        (py_str (example_env [])) (jwt_decode (example_env []))
        (λ _, None) (select_chat_ids (example_env [])) (select_member (example_env [])).

Lemma handshake_store_failure_example :
  websocket_endpoint failing_store 9 (Some "tokA") [RecvDisconnect] example_world
  = Ok Terminated (observe (Closed 9 4000) example_world).
Proof.
  exact (handshake_store_failure failing_store 9 "tokA" (JStr alice_id) [RecvDisconnect]
           example_world
           (λ E : "tokA" = "", eq_ind "tokA"
              (λ s, match s with EmptyString => False | String _ _ => True end) I "" E)
           eq_refl eq_refl (or_introl eq_refl)).
Defined.

(** X16.  A well-signed token that is not an access token (a refresh
    token, say, or one without a [type] claim) is refused like a missing
    one: the transport is closed with 4001, the store is not asked for the
    user (the result is the same for every store), and nothing else
    changes. *)
Theorem wrong_token_type_refused (env : Env) (ws : WebSocket) (t : string)
    (payload : list (string * json)) (inbox : list Recv) (w : World) :
  t ≠ "" → jwt_decode env t = Some payload →
  dict_get "type" payload ≠ Some (JStr "access") →
  verify_token env t "access" = None ∧
  ∀ select_user' : json → Rows User,
    websocket_endpoint
      (mkEnv (write_outcome env) (uuid_parse env) (py_str env) (jwt_decode env)
             select_user' (select_chat_ids env) (select_member env))
      ws (Some t) inbox w
    = Ok Refused (observe (Closed ws 4001) w).
Proof.
  intros Ht Hd Hty.
  assert (event_is (default JNull (dict_get "type" payload)) "access" = false) as Hf.
  { destruct (dict_get "type" payload) as [[]|] eqn:E; try done. simpl.
    apply String.eqb_neq. intros ->. by apply Hty. }
  split.
  - unfold verify_token, decode_token. by rewrite Hd, Hf.
  - intros q. destruct t as [|a t]; [done|]. simpl.
    unfold get_user_from_token, verify_token, decode_token. simpl. by rewrite Hd, Hf.
Qed.

(** A token service that issues refresh tokens only. *)
Definition refresh_env : Env :=
  mkEnv (write_outcome (example_env [])) (uuid_parse (example_env []))
        (py_str (example_env []))
        (λ _, Some [("type", JStr "refresh"); ("sub", JStr alice_id)])
        (select_user (example_env [])) (select_chat_ids (example_env []))
        (select_member (example_env [])).

Lemma wrong_token_type_refused_example :
  verify_token refresh_env "tokA" "access" = None ∧
  ∀ select_user' : json → Rows User,
    websocket_endpoint
      (mkEnv (write_outcome refresh_env) (uuid_parse refresh_env) (py_str refresh_env)
             (jwt_decode refresh_env) select_user' (select_chat_ids refresh_env)
             (select_member refresh_env))
      9 (Some "tokA") [RecvDisconnect] example_world
    = Ok Refused (observe (Closed 9 4001) example_world).
Proof.
  exact (wrong_token_type_refused refresh_env 9 "tokA"
           [("type", JStr "refresh"); ("sub", JStr alice_id)] [RecvDisconnect] example_world
           (λ E : "tokA" = "", eq_ind "tokA"
              (λ s, match s with EmptyString => False | String _ _ => True end) I "" E)
           eq_refl
           ltac:(discriminate)).
Defined.

(** * [core/redis.py]: rate limiting and unread counters *)

(** The part of the Redis server that [check_rate_limit] and the unread
    counters use: keys that hold an integer, with the time at which they
    expire, and hashes of integers.  Time is a number of seconds; a key
    whose time has come is gone.  The two commands of [check_rate_limit]
    are taken to run at the same instant. *)
Module redis_values.

Record Counter := mkCounter { count : Z; expires_at : option Z }.


(** Redis keeps integers as signed 64-bit numbers and refuses to go over. *)
Definition int64_max : Z := 9223372036854775807.

Definition live (now : Z) (c : Counter) : bool :=
  match expires_at c with
  | Some t => (now <? t)%Z
  | None => true
  end.

Definition get_live (now : Z) (key : string) (s : gmap string Counter) : option Counter :=
  match s !! key with
  | Some c => if live now c then Some c else None
  | None => None
  end.

(** [INCR key]: the new value, or [None] for the error on overflow.  The
    expiry of a live key is kept. *)
Definition incr (now : Z) (key : string) (s : gmap string Counter) : option (Z * gmap string Counter) :=
  match get_live now key s with
  | None => Some (1%Z, <[key := mkCounter 1 None]> s)
  | Some c =>
      if (count c <? int64_max)%Z
      then Some ((count c + 1)%Z, <[key := mkCounter (count c + 1) (expires_at c)]> s)
      else None
  end.

(** [EXPIRE key seconds]: a timeout that is not positive deletes the key. *)
Definition expire (now : Z) (key : string) (seconds : Z) (s : gmap string Counter) : gmap string Counter :=
  match get_live now key s with
  | None => s
  | Some c =>
      if (0 <? seconds)%Z then <[key := mkCounter (count c) (Some (now + seconds)%Z)]> s
      else delete key s
  end.

(** [RedisManager.check_rate_limit] at time [now]; [redis] is [None] while
    Redis is not connected; the result [None] is the error of [INCR]. *)
Definition check_rate_limit (now : Z) (key : string) (limit window : Z)
    (redis : option (gmap string Counter)) : option ((bool * Z) * option (gmap string Counter)) :=
  match redis with
  | Some s =>
      match incr now key s with
      | Some (current, s1) =>
          let s2 := if (current =? 1)%Z then expire now key window s1 else s1 in
          let remaining := Z.max 0 (limit - current) in
          Some (((current <=? limit)%Z, remaining), Some s2)
      | None => None
      end
  | None => Some ((true, limit), None)
  end.

(** [HINCRBY key field 1]. *)
Definition hincrby (key field : string) (s : gmap string (gmap string Z)) : option (Z * gmap string (gmap string Z)) :=
  let h := default ∅ (s !! key) in
  let v := default 0%Z (h !! field) in
  if (v <? int64_max)%Z then Some ((v + 1)%Z, <[key := <[field := (v + 1)%Z]> h]> s)
  else None.

(** [HDEL key field]: a hash that becomes empty is removed. *)
Definition hdel (key field : string) (s : gmap string (gmap string Z)) : gmap string (gmap string Z) :=
  match s !! key with
  | Some h =>
      let h' := delete field h in
      if decide (h' = ∅) then delete key s else <[key := h']> s
  | None => s
  end.

(** [HGETALL key]. *)
Definition hgetall (key : string) (s : gmap string (gmap string Z)) : gmap string Z := default ∅ (s !! key).

Definition unread_key (user_id : string) : string := ("unread:" ++ user_id)%string.

(** [RedisManager.increment_unread]. *)
Definition increment_unread (user_id chat_id : string) (redis : option (gmap string (gmap string Z))) :
    option (Z * option (gmap string (gmap string Z))) :=
  match redis with
  | Some s =>
      match hincrby (unread_key user_id) chat_id s with
      | Some (v, s') => Some (v, Some s')
      | None => None
      end
  | None => Some (0%Z, None)
  end.

(** [RedisManager.clear_unread]. *)
Definition clear_unread (user_id chat_id : string) (redis : option (gmap string (gmap string Z))) : option (gmap string (gmap string Z)) :=
  match redis with
  | Some s => Some (hdel (unread_key user_id) chat_id s)
  | None => None
  end.

(** [RedisManager.get_unread_counts]. *)
Definition get_unread_counts (user_id : string) (redis : option (gmap string (gmap string Z))) : gmap string Z :=
  match redis with
  | Some s => hgetall (unread_key user_id) s
  | None => ∅
  end.

(** One call of [check_rate_limit] at each of the times, in order. *)
Fixpoint check_each (key : string) (limit window : Z) (times : list Z)
    (redis : option (gmap string Counter)) : option (list (bool * Z) * option (gmap string Counter)) :=
  match times with
  | [] => Some ([], redis)
  | now :: rest =>
      match check_rate_limit now key limit window redis with
      | Some (r, redis1) =>
          match check_each key limit window rest redis1 with
          | Some (rs, redis2) => Some (r :: rs, redis2)
          | None => None
          end
      | None => None
      end
  end.

(** [n] calls of [increment_unread]. *)
Fixpoint increment_times (user_id chat_id : string) (n : nat) (redis : option (gmap string (gmap string Z))) :
    option (list Z * option (gmap string (gmap string Z))) :=
  match n with
  | 0 => Some ([], redis)
  | S n =>
      match increment_unread user_id chat_id redis with
      | Some (v, redis1) =>
          match increment_times user_id chat_id n redis1 with
          | Some (vs, redis2) => Some (v :: vs, redis2)
          | None => None
          end
      | None => None
      end
  end.

End redis_values.

(** What the [k]-th call in a window answers. *)
Definition verdict (limit k : Z) : bool * Z := ((k <=? limit)%Z, Z.max 0 (limit - k)).

(** The verdicts of calls number [k], [k + 1], ... *)
Fixpoint verdicts (limit k : Z) (n : nat) : list (bool * Z) :=
  match n with
  | 0 => []
  | S n => verdict limit k :: verdicts limit (k + 1) n
  end.

Lemma check_each_running key limit window T times k (s : gmap string redis_values.Counter) :
  s !! key = Some (redis_values.mkCounter k (Some T)) →
  (1 ≤ k)%Z → (∀ t, t ∈ times → (t < T)%Z) →
  (k + Z.of_nat (length times) < redis_values.int64_max)%Z →
  ∃ s', redis_values.check_each key limit window times (Some s)
        = Some (verdicts limit (k + 1) (length times), Some s') ∧
        s' !! key = Some (redis_values.mkCounter (k + Z.of_nat (length times)) (Some T)).
Proof.
  revert k s. induction times as [|t times IH]; intros k s Hs Hk Ht Hmax.
  - exists s. split; [done|]. by rewrite Z.add_0_r.
  - simpl. unfold redis_values.check_rate_limit, redis_values.incr, redis_values.get_live.
    rewrite Hs. unfold redis_values.live. simpl.
    assert (t < T)%Z as HtT by (apply Ht; left).
    apply Z.ltb_lt in HtT as HtT'. rewrite HtT'.
    cbn [redis_values.count redis_values.expires_at].
    assert ((k <? redis_values.int64_max)%Z = true) as ->.
    { apply Z.ltb_lt. simpl length in Hmax. lia. }
    assert ((k + 1 =? 1)%Z = false) as -> by (apply Z.eqb_neq; lia).
    destruct (IH (k + 1)%Z (<[key := redis_values.mkCounter (k + 1) (Some T)]> s))
      as (s' & -> & Hs').
    + by rewrite lookup_insert_eq.
    + lia.
    + intros t' Ht'. apply Ht. by right.
    + simpl length in Hmax. lia.
    + exists s'. split; [done|]. rewrite Hs'. f_equal. f_equal. simpl length. lia.
Qed.

(** X17.  The rate limiter counts in fixed windows.  Let the key be absent
    (or expired) at time [t0], the window positive, and let calls be made
    at [t0] and then at times within the window.  Then every call returns,
    the [k]-th of them answers "allowed" exactly when [k <= limit], with
    [max 0 (limit - k)] remaining, and the first call at or after
    [t0 + window] is counted as number one again. *)
Theorem rate_limit_window (key : string) (limit window t0 t1 : Z) (times : list Z)
    (s : gmap string redis_values.Counter) :
  redis_values.get_live t0 key s = None → (0 < window)%Z →
  (∀ t, t ∈ times → (t0 ≤ t < t0 + window)%Z) →
  (1 + Z.of_nat (length times) < redis_values.int64_max)%Z →
  (t0 + window ≤ t1)%Z →
  ∃ s' s'',
    redis_values.check_each key limit window (t0 :: times) (Some s)
    = Some (verdicts limit 1 (S (length times)), Some s') ∧
    redis_values.check_rate_limit t1 key limit window (Some s')
    = Some (verdict limit 1, Some s'').
Proof.
  intros Habs Hw Ht Hmax Ht1. cbn [redis_values.check_each].
  unfold redis_values.check_rate_limit at 1, redis_values.incr. rewrite Habs.
  cbn [Z.eqb Pos.eqb].
  unfold redis_values.expire, redis_values.get_live. rewrite lookup_insert_eq.
  unfold redis_values.live. simpl.
  assert ((0 <? window)%Z = true) as -> by (by apply Z.ltb_lt).
  rewrite insert_insert_eq.
  destruct (check_each_running key limit window (t0 + window)%Z times 1
              (<[key := redis_values.mkCounter 1 (Some (t0 + window)%Z)]> s))
    as (s' & Hrun & Hs').
  - by rewrite lookup_insert_eq.
  - lia.
  - intros t Hin. apply Ht in Hin. lia.
  - done.
  - simpl in Hrun. rewrite Hrun. eexists s', _. split; [done|].
    unfold redis_values.check_rate_limit, redis_values.incr, redis_values.get_live.
    rewrite Hs'. unfold redis_values.live. simpl.
    assert ((t1 <? t0 + window)%Z = false) as -> by (apply Z.ltb_ge; lia).
    simpl. done.
Qed.

Lemma rate_limit_window_example :
  ∃ s' s'',
    redis_values.check_each "login:alice" 2 60 [100; 110; 159]%Z (Some ∅)
    = Some ([(true, 1); (true, 0); (false, 0)]%Z, Some s') ∧
    redis_values.check_rate_limit 160 "login:alice" 2 60 (Some s')
    = Some ((true, 1%Z), Some s'').
Proof.
  refine (rate_limit_window "login:alice" 2 60 100 160 [110; 159]%Z ∅ eq_refl eq_refl _
            eq_refl _).
  - intros t Ht. apply elem_of_cons in Ht as [->|Ht]; [lia|].
    apply elem_of_cons in Ht as [->|Ht]; [lia|]. by apply elem_of_nil in Ht.
  - by intros H.
Defined.

(** X18.  While Redis is not connected, [check_rate_limit] limits nothing:
    every call, however many and whatever the limit (zero and negative
    limits included), answers "allowed" with the whole limit remaining. *)
Theorem rate_limit_open_without_redis (key : string) (limit window : Z) (times : list Z) :
  redis_values.check_each key limit window times None
  = Some (replicate (length times) (true, limit), None).
Proof. induction times as [|t times IH]; simpl; [done|]. by rewrite IH. Qed.

Lemma unread_key_inj u v : redis_values.unread_key u = redis_values.unread_key v → u = v.
Proof. unfold redis_values.unread_key. by intros ?%(inj (String.app "unread:")). Qed.

Lemma increment_times_running u c n k (s : gmap string (gmap string Z)) :
  redis_values.hgetall (redis_values.unread_key u) s !! c = (if decide (k = 0%Z) then None else Some k) →
  (0 ≤ k)%Z → (k + Z.of_nat n < redis_values.int64_max)%Z →
  ∃ s', redis_values.increment_times u c n (Some s)
        = Some (seqZ (k + 1) (Z.of_nat n), Some s') ∧
        redis_values.hgetall (redis_values.unread_key u) s' !! c
        = (if decide (k + Z.of_nat n = 0)%Z then None else Some (k + Z.of_nat n)%Z) ∧
        ∀ u' c', (u', c') ≠ (u, c) →
          redis_values.hgetall (redis_values.unread_key u') s' !! c'
          = redis_values.hgetall (redis_values.unread_key u') s !! c'.
Proof.
  revert k s. induction n as [|n IH]; intros k s Hs Hk Hmax.
  - exists s. split_and!; [done| |done]. by rewrite Z.add_0_r.
  - simpl redis_values.increment_times.
    unfold redis_values.increment_unread, redis_values.hincrby.
    unfold redis_values.hgetall in Hs.
    assert (default 0%Z (default ∅ (s !! redis_values.unread_key u) !! c) = k) as ->.
    { rewrite Hs. by case_decide. }
    assert ((k <? redis_values.int64_max)%Z = true) as -> by (apply Z.ltb_lt; lia).
    set (s1 := <[redis_values.unread_key u := _]> s).
    destruct (IH (k + 1)%Z s1) as (s' & -> & Hs' & Hother).
    + unfold redis_values.hgetall. subst s1. rewrite lookup_insert_eq. simpl.
      rewrite lookup_insert_eq. rewrite decide_False by lia. done.
    + lia.
    + lia.
    + exists s'. split_and!.
      * replace (Z.of_nat (S n)) with (Z.succ (Z.of_nat n)) by lia.
        rewrite (seqZ_cons (k + 1)) by lia. rewrite Z.pred_succ.
        by replace (Z.succ (k + 1)) with (k + 1 + 1)%Z by lia.
      * rewrite Hs'. replace (k + 1 + Z.of_nat n)%Z with (k + Z.of_nat (S n))%Z by lia. done.
      * intros u' c' Hne. rewrite Hother by done. unfold redis_values.hgetall. subst s1.
        destruct (decide (u' = u)) as [->|Hu].
        -- rewrite lookup_insert_eq. simpl. rewrite lookup_insert_ne; [done|]. congruence.
        -- rewrite lookup_insert_ne; [done|]. intros E. by apply unread_key_inj in E.
Qed.

Lemma hgetall_hdel key field key' s :
  redis_values.hgetall key' (redis_values.hdel key field s)
  = if decide (key' = key) then delete field (redis_values.hgetall key' s)
    else redis_values.hgetall key' s.
Proof.
  unfold redis_values.hgetall, redis_values.hdel.
  destruct (s !! key) as [h|] eqn:E.
  - destruct (decide (delete field h = ∅)) as [He|He].
    + destruct (decide (key' = key)) as [->|Hne].
      * rewrite lookup_delete_eq, E. simpl. by rewrite He.
      * by rewrite lookup_delete_ne.
    + destruct (decide (key' = key)) as [->|Hne].
      * by rewrite lookup_insert_eq, E.
      * by rewrite lookup_insert_ne.
  - destruct (decide (key' = key)) as [->|Hne]; [|done].
    rewrite E. simpl. by rewrite delete_empty.
Qed.

(** X19.  The unread counter of a chat counts the messages since it was
    cleared.  After [clear_unread] for user [u] and chat [c], [n] calls of
    [increment_unread] return [1, 2, ..., n]; afterwards
    [get_unread_counts] of [u] has [n] for [c] (no entry when [n = 0]),
    and the counts of every other user and every other chat are what they
    were before the clear. *)
Theorem unread_counts_since_clear (u c : string) (n : nat) (s : gmap string (gmap string Z)) :
  (Z.of_nat n < redis_values.int64_max)%Z →
  ∃ r, redis_values.increment_times u c n (redis_values.clear_unread u c (Some s))
       = Some (seqZ 1 (Z.of_nat n), r) ∧
       redis_values.get_unread_counts u r !! c
       = (if decide (n = 0) then None else Some (Z.of_nat n)) ∧
       ∀ u' c', (u', c') ≠ (u, c) →
         redis_values.get_unread_counts u' r !! c'
         = redis_values.get_unread_counts u' (Some s) !! c'.
Proof.
  intros Hmax. simpl.
  destruct (increment_times_running u c n 0
              (redis_values.hdel (redis_values.unread_key u) c s))
    as (s' & Hrun & Hs' & Hother).
  - rewrite hgetall_hdel, decide_True by done. by rewrite lookup_delete_eq.
  - done.
  - lia.
  - exists (Some s'). split_and!.
    + exact Hrun.
    + simpl. rewrite Hs'. simpl. destruct n; [done|]. rewrite decide_False by lia.
      by rewrite decide_False by lia.
    + intros u' c' Hne. simpl. rewrite Hother by done. rewrite hgetall_hdel.
      destruct (decide (redis_values.unread_key u' = redis_values.unread_key u)) as [Hk|Hk];
        [|done].
      apply unread_key_inj in Hk as ->.
      rewrite lookup_delete_ne; [done|]. congruence.
Qed.

Lemma unread_counts_since_clear_example :
  ∃ r, redis_values.increment_times alice_id chat1 3
         (redis_values.clear_unread alice_id chat1
            (Some {[redis_values.unread_key alice_id := {[chat1 := 7%Z; chat2 := 2%Z]}]}))
       = Some (seqZ 1 (Z.of_nat 3), r) ∧
       redis_values.get_unread_counts alice_id r !! chat1
       = (if decide (3 = 0) then None else Some (Z.of_nat 3)) ∧
       ∀ u' c', (u', c') ≠ (alice_id, chat1) →
         redis_values.get_unread_counts u' r !! c'
         = redis_values.get_unread_counts u'
             (Some {[redis_values.unread_key alice_id := {[chat1 := 7%Z; chat2 := 2%Z]}]}) !! c'.
Proof.
  exact (unread_counts_since_clear alice_id chat1 3
           {[redis_values.unread_key alice_id := {[chat1 := 7%Z; chat2 := 2%Z]}]} eq_refl).
Defined.

(** * [main.py]: the readiness probe *)

(** The [checks] dict of [ready_check]. *)
Record Checks := mkChecks { database : bool; redis_ready : bool }.

(** [all(checks.values())]. *)
Definition all_values (c : Checks) : bool := database c && redis_ready c.

(** The response of [GET /ready]: status code, status text and checks (the
    timestamp is left out).  [ping] is the outcome of [redis.ping()];
    an exception of it is swallowed. *)
Definition ready_check (ping : option Exn) (w : World) : Z * string * Checks :=
  let checks := mkChecks false false in
  let checks :=
    match redis w with
    | Some _ =>
        match ping with
        | None => mkChecks (database checks) true
        | Some _ => checks
        end
    | None => checks
    end in
  let is_ready := all_values checks in
  ((if is_ready then 200 else 503)%Z, if is_ready then "ready" else "not ready", checks).

(** X20.  The readiness probe never reports ready: the [database] check
    is initialised to false and nothing sets it, so whatever the state of
    Redis and the outcome of its ping, the answer is 503 "not ready"; the
    [redis] check itself is true exactly when Redis is connected and
    answers the ping. *)
Theorem ready_check_never_ready (ping : option Exn) (w : World) :
  let '(code, text, checks) := ready_check ping w in
  code = 503%Z ∧ text = "not ready" ∧ database checks = false ∧
  (redis_ready checks = true ↔ is_Some (redis w) ∧ ping = None).
Proof.
  unfold ready_check. destruct (redis w) as [keys|], ping as [e|]; simpl;
    split_and!; try done; split; try done.
  - by intros [_ ?].
  - by intros [[? ?] _].
  - by intros [[? ?] _].
Qed.
